(** * FlashCore vector index: a shallow embedding of
      [flashcore/src/vector_search.cpp] and the properties of its three
      entry points [create_hnsw_index], [add_vector_to_index] and
      [search_vector_in_index]; then of the sibling modules
      [inference_engine.cpp] and [vault_security.cpp] and of the Python
      bindings of the index and the vault. *)

From Stdlib Require Import ZArith List Bool Lia Permutation Sorted.
From Stdlib Require Import Floats.SpecFloat.
From Stdlib Require Strings.String Strings.Byte.
Import ListNotations.
Import String.StringSyntax.
Delimit Scope string_scope with string.
Open Scope Z_scope.

(** ** C++ [float]: IEEE 754 binary32, round to nearest even *)

Module F32.

Definition prec : Z := 24.
Definition emax : Z := 128.

(** One [S754_nan] stands for every NaN: the sign and the payload of a
    NaN are not modelled, so nothing here tells two NaNs apart. *)
Definition float : Type := spec_float.

(** The literal [0.0f]. *)
Definition zero : float := S754_zero false.

Definition add : float -> float -> float := SFadd prec emax.
Definition sub : float -> float -> float := SFsub prec emax.
Definition mul : float -> float -> float := SFmul prec emax.
Definition sqrt : float -> float := SFsqrt prec emax.

(** [a < b] on floats: false as soon as one side is a NaN. *)
Definition ltb (a b : float) : bool := SFltb a b.

(** [a == b] on floats. *)
Definition eqb (a b : float) : bool := SFeqb a b.

Definition is_nan (a : float) : bool :=
  match a with S754_nan => true | _ => false end.

(** Neither a NaN nor an infinity. *)
Definition is_finite (a : float) : bool :=
  match a with S754_zero _ | S754_finite _ _ _ => true | _ => false end.

(** Sign bit clear, or a NaN: what a sum of squares and its root can be. *)
Definition nonneg (a : float) : Prop :=
  match a with
  | S754_zero s | S754_infinity s | S754_finite s _ _ => s = false
  | S754_nan => True
  end.

(** Conversion of a small integer literal, for examples: [of_Z 3] is [3.0f]. *)
Definition of_Z (z : Z) : float := binary_normalize prec emax z 0 false.

(** [n / 2] for an integer [n], exact in binary32 for small [n]. *)
Definition halves (n : Z) : float := binary_normalize prec emax n (-1) false.

End F32.

(** ** C++ integer types and the conversions the code performs *)

Module CInt.

(** [int] is 32 bits wide, [size_t] 64 bits (LP64). *)
Definition INT_MIN : Z := - 2 ^ 31.
Definition INT_MAX : Z := 2 ^ 31 - 1.
Definition SIZE_MODULUS : Z := 2 ^ 64.

(** The values an [int] argument can take. *)
Definition is_int (x : Z) : Prop := INT_MIN <= x <= INT_MAX.

(** Implicit conversion [int -> size_t] in a mixed comparison: the value
    modulo 2^64. *)
Definition to_size_t (x : Z) : Z := x mod SIZE_MODULUS.

(** [static_cast<int>] of a [size_t]: the low 32 bits, read as signed. *)
Definition to_int (x : Z) : Z :=
  let r := x mod 2 ^ 32 in
  if r <? 2 ^ 31 then r else r - 2 ^ 32.

End CInt.

(** ** The parts of the C++ standard library the code calls *)

Module Std.

(** [operator<] of [std::pair<float, int>]:
    [a.first < b.first || (!(b.first < a.first) && a.second < b.second)]. *)
Definition pair_lt (a b : F32.float * Z) : bool :=
  F32.ltb (fst a) (fst b)
  || (negb (F32.ltb (fst b) (fst a)) && (snd a <? snd b)).

(** [std::min] on [int]. *)
Definition min (a b : Z) : Z := if b <? a then b else a.

Section Sort.
Context {A : Type}.
Variable lt : A -> A -> bool.

(** [std::sort(first, last)] rearranges the range into ascending order
    of [lt].  The standard fixes the result, not the algorithm; it is
    modelled by insertion into an ordered sequence, and
    [sort_unique] below shows that on the keys the search produces
    every algorithm meeting the standard's postcondition returns this
    same sequence.  The standard asks that [lt] be a strict weak
    ordering of the elements; with a NaN among the distances
    [operator<] is not one and the call has no defined result, so the
    theorems about the order of the results assume there is none.  An
    implementation then leaves some rearrangement that depends on its
    algorithm; the model still returns one, which need not be that of a
    given library (on [WithNaN] below it is that of libstdc++ and of
    libc++, which both leave the sequence as it stands). *)
Fixpoint insert (x : A) (l : list A) : list A :=
  match l with
  | [] => [x]
  | y :: l' => if lt y x then y :: insert x l' else x :: l
  end.

Fixpoint sort (l : list A) : list A :=
  match l with
  | [] => []
  | x :: l' => insert x (sort l')
  end.

(** [ascending l]: no element is less than one that precedes it, the
    postcondition of [std::sort]. *)
Definition not_after (a b : A) : Prop := lt b a = false.
Definition ascending (l : list A) : Prop := StronglySorted not_after l.

End Sort.

End Std.

(** ** The index *)

(** [struct hnsw_index]. *)
Record hnsw_index : Type := mk_hnsw_index {
  dimensions : Z;
  max_elements : Z;
  vectors : list (Z * list F32.float)   (* id, vector pairs *)
}.

(** [index->vectors.size()]. *)
Definition size (index : hnsw_index) : Z := Z.of_nat (length (vectors index)).

(** A pointer result: [None] is [nullptr]. *)
Definition ptr (A : Type) : Type := option A.

(** A computation over the index behind the handle.  [None] stands for
    undefined behaviour (a read outside the caller's buffer or outside a
    stored vector); otherwise the returned value comes with the index as
    the call leaves it. *)
Definition call (A : Type) : Type := hnsw_index -> option (A * hnsw_index).

Definition ret {A} (a : A) : call A := fun index => Some (a, index).
Definition undefined {A} : call A := fun _ => None.
Definition bind {A B} (c : call A) (k : A -> call B) : call B :=
  fun index =>
    match c index with
    | Some (a, index') => k a index'
    | None => None
    end.
Definition get : call hnsw_index := fun index => Some (index, index).
Definition put (index' : hnsw_index) : call unit := fun _ => Some (tt, index').
Definition lift {A} (o : option A) : call A :=
  match o with Some a => ret a | None => undefined end.

Notation "x <- c ;; k" := (bind c (fun x => k))
  (at level 61, c at next level, right associativity).

(** [create_hnsw_index]: allocates the structure and stores the two
    arguments; [vectors] starts empty.  No argument is inspected. *)
Definition create_hnsw_index (dimensions max_elements : Z) : ptr hnsw_index :=
  Some {| dimensions := dimensions;
          max_elements := max_elements;
          vectors := [] |}.

(** [std::vector<float> vec(vector, vector + n)]: the [n] floats at the
    start of the caller's buffer.  Undefined when [n] is negative or the
    buffer holds fewer than [n] floats. *)
Definition copy_range (vector : list F32.float) (n : Z) : option (list F32.float) :=
  if n <? 0 then None
  else if Z.of_nat (length vector) <? n then None
  else Some (firstn (Z.to_nat n) vector).

(** [add_vector_to_index]: returns [-1] when the index is full, [0] after
    appending [(id, vec)]. *)
Definition add_vector_to_index (vector : list F32.float) (id : Z) : call Z :=
  index <- get ;;
  if CInt.to_size_t (max_elements index) <=? size index then
    ret (-1)
  else
    vec <- lift (copy_range vector (dimensions index)) ;;
    _ <- put {| dimensions := dimensions index;
                max_elements := max_elements index;
                vectors := vectors index ++ [(id, vec)] |} ;;
    ret 0.

(** The inner loop of the search,
    [for (int i = 0; i < dimensions; ++i) { diff = query_vector[i] - stored_vector[i]; distance += diff * diff; }],
    entered at index [i] with [n] iterations left.  Each operation
    rounds to [float] (the product and the sum are not fused).  Reading
    either sequence past its end is undefined. *)
Fixpoint accumulate (query_vector stored_vector : list F32.float)
    (i n : nat) (distance : F32.float) : option F32.float :=
  match n with
  | O => Some distance
  | S n' =>
      match nth_error query_vector i, nth_error stored_vector i with
      | Some q, Some s =>
          let diff := F32.sub q s in
          accumulate query_vector stored_vector (S i) n'
            (F32.add distance (F32.mul diff diff))
      | _, _ => None
      end
  end.

(** The distance the search computes for one stored vector:
    [distance = 0.0f], the loop above, then [std::sqrt]. *)
Definition entry_distance (dims : Z) (query_vector stored_vector : list F32.float)
  : option F32.float :=
  option_map F32.sqrt
    (accumulate query_vector stored_vector 0 (Z.to_nat dims) F32.zero).

(** The outer loop, [for (const auto& vec_pair : index->vectors)], pushing
    [(distance, id)] onto [distances] for each stored pair in turn. *)
Fixpoint scan (dims : Z) (query_vector : list F32.float)
    (vecs : list (Z * list F32.float)) (distances : list (F32.float * Z))
  : option (list (F32.float * Z)) :=
  match vecs with
  | [] => Some distances
  | vec_pair :: rest =>
      let id := fst vec_pair in
      let stored_vector := snd vec_pair in
      match entry_distance dims query_vector stored_vector with
      | Some distance =>
          scan dims query_vector rest (distances ++ [(distance, id)])
      | None => None
      end
  end.

(** The copy-out loop,
    [for (int i = 0; i < result_count; ++i) { result_ids[i] = distances[i].second; result_distances[i] = distances[i].first; }],
    as the sequence of [(result_ids[i], result_distances[i])] it writes. *)
Fixpoint copy_out (distances : list (F32.float * Z)) (i n : nat)
  : option (list (Z * F32.float)) :=
  match n with
  | O => Some []
  | S n' =>
      match nth_error distances i with
      | Some p => option_map (cons (snd p, fst p)) (copy_out distances (S i) n')
      | None => None
      end
  end.

(** What a search hands back to its caller: the [int] it returns and the
    pairs it has written into [result_ids] and [result_distances], from
    position 0 on. *)
Record search_output : Type := mk_search_output {
  returned : Z;
  written : list (Z * F32.float)
}.

(** [search_vector_in_index]. *)
Definition search_vector_in_index (query_vector : list F32.float) (k : Z)
  : call search_output :=
  index <- get ;;
  if (k <=? 0) || (size index <? CInt.to_size_t k) then
    ret {| returned := -1; written := [] |}   (* Invalid k *)
  else
    distances <- lift (scan (dimensions index) query_vector (vectors index) []) ;;
    let distances := Std.sort Std.pair_lt distances in
    let result_count :=
      Std.min k (CInt.to_int (Z.of_nat (length distances))) in
    out <- lift (copy_out distances 0 (Z.to_nat result_count)) ;;
    ret {| returned := result_count; written := out |}.

(** A run of [add_vector_to_index] calls, one per [(vector, id)] of
    [calls], collecting the returned codes. *)
Fixpoint add_all (calls : list (list F32.float * Z)) : call (list Z) :=
  match calls with
  | [] => ret []
  | (vector, id) :: rest =>
      r <- add_vector_to_index vector id ;;
      rs <- add_all rest ;;
      ret (r :: rs)
  end.

(** *** The run of [tests/test_vector_search.cpp] *)

Module TestVectors.
Definition f (z : Z) : F32.float := F32.of_Z z.
Definition vec1 := [f 1; f 2; f 3; f 4].
Definition vec2 := [f 2; f 3; f 4; f 5].
Definition vec3 := [f 3; f 4; f 5; f 6].
Definition query := [F32.halves 3; F32.halves 5; F32.halves 7; F32.halves 9].
Definition filled : hnsw_index :=
  {| dimensions := 4; max_elements := 100;
     vectors := [(1, vec1); (2, vec2); (3, vec3)] |}.
Definition calls : list (list F32.float * Z) :=
  [(vec1, 1); (vec2, 2); (vec3, 3)].
Definition found : search_output :=
  {| returned := 3; written := [(1, f 1); (2, f 1); (3, f 3)] |}.
End TestVectors.

(** The same three insertions into an index of capacity 2. *)
Module CapacityTwo.
Definition empty : hnsw_index :=
  {| dimensions := 4; max_elements := 2; vectors := [] |}.
Definition full : hnsw_index :=
  {| dimensions := 4; max_elements := 2;
     vectors := [(1, TestVectors.vec1); (2, TestVectors.vec2)] |}.
End CapacityTwo.

(** ... and into an index created with capacity -1. *)
Module CapacityMinusOne.
Definition empty : hnsw_index :=
  {| dimensions := 4; max_elements := -1; vectors := [] |}.
End CapacityMinusOne.

(** A buffer of three floats offered to an index of dimension 2. *)
Module LongBuffer.
Definition index : hnsw_index :=
  {| dimensions := 2; max_elements := 3;
     vectors := [(7, [F32.of_Z 1; F32.of_Z 2])] |}.
Definition vector : list F32.float := [F32.of_Z 4; F32.of_Z 5; F32.of_Z 6].
End LongBuffer.

(** ** Vocabulary of the specification *)

(** The Euclidean distance in the specification's words: the square root
    of the sum, over [i] in [[0, dims)], of the squared difference of the
    [i]-th components; evaluated in [float] arithmetic, summing from
    index 0 up. *)
Definition euclidean_distance (dims : Z) (a b : list F32.float) : F32.float :=
  F32.sqrt
    (fold_left
       (fun sum i =>
          let d := F32.sub (nth i a F32.zero) (nth i b F32.zero) in
          F32.add sum (F32.mul d d))
       (seq 0 (Z.to_nat dims)) F32.zero).

(** The [(distance, identifier)] pair of every stored entry, in insertion
    order. *)
Definition keyed (dims : Z) (query : list F32.float)
    (vecs : list (Z * list F32.float)) : list (F32.float * Z) :=
  map (fun e => (euclidean_distance dims query (snd e), fst e)) vecs.

(** A [(distance, identifier)] pair as the caller receives it. *)
Definition as_result (p : F32.float * Z) : Z * F32.float := (snd p, fst p).

(** The precondition on [k]: an [int] with [1 <= k <= size]. *)
Definition valid_k (index : hnsw_index) (k : Z) : Prop :=
  CInt.is_int k /\ 1 <= k <= size index.

(** The query buffer and every stored vector hold at least [dimensions]
    floats, so that the search reads inside them. *)
Definition readable (index : hnsw_index) (query : list F32.float) : Prop :=
  dimensions index <= Z.of_nat (length query)
  /\ Forall (fun e => dimensions index <= Z.of_nat (length (snd e)))
       (vectors index).

(** No distance of the search is a NaN. *)
Definition nan_free (index : hnsw_index) (query : list F32.float) : Prop :=
  Forall (fun p => F32.is_nan (fst p) = false)
    (keyed (dimensions index) query (vectors index)).

(** Every component of the query and of the stored vectors is a finite
    number. *)
Definition finite_inputs (index : hnsw_index) (query : list F32.float) : Prop :=
  Forall (fun x => F32.is_finite x = true) query
  /\ Forall (fun e => Forall (fun x => F32.is_finite x = true) (snd e))
       (vectors index).

(** The stored count is a value of type [int]. *)
Definition countable (index : hnsw_index) : Prop :=
  size index <= CInt.INT_MAX.

(** The data model's invariant on an index of positive capacity. *)
Definition well_formed (index : hnsw_index) : Prop :=
  CInt.is_int (max_elements index)
  /\ 0 < max_elements index
  /\ size index <= max_elements index
  /\ Forall (fun e => Z.of_nat (length (snd e)) = dimensions index)
       (vectors index).

(** A key whose distance is neither a NaN nor negative: on such keys
    [operator<] is a strict total order. *)
Definition ordered_key (p : F32.float * Z) : Prop :=
  F32.is_nan (fst p) = false /\ F32.nonneg (fst p).

(** The ranking the search builds: [distances] after [std::sort]. *)
Definition ranking (index : hnsw_index) (query : list F32.float)
  : list (F32.float * Z) :=
  Std.sort Std.pair_lt (keyed (dimensions index) query (vectors index)).

(** Ascending by distance. *)
Definition dist_le (a b : F32.float * Z) : Prop :=
  F32.ltb (fst b) (fst a) = false.

(** Ascending in the lexicographic order of (distance, identifier). *)
Definition lex_le (a b : F32.float * Z) : Prop :=
  F32.ltb (fst a) (fst b) = true \/ (fst a = fst b /\ snd a <= snd b).

(** The ranking the specification asks for: ascending by distance alone,
    equal distances in insertion order (a stable sort of the insertion
    sequence). *)
Definition by_distance (a b : F32.float * Z) : bool :=
  F32.ltb (fst a) (fst b).

Definition insertion_order_ranking (dims : Z) (query : list F32.float)
    (vecs : list (Z * list F32.float)) : list (F32.float * Z) :=
  Std.sort by_distance (keyed dims query vecs).

(** "Equal distances are returned in insertion order", for one search. *)
Definition ties_in_insertion_order (index : hnsw_index)
    (query : list F32.float) (k : Z) : Prop :=
  forall out index',
    search_vector_in_index query k index = Some (out, index') ->
    written out
    = map as_result
        (firstn (Z.to_nat k)
           (insertion_order_ranking (dimensions index) query (vectors index))).

(** "Construction rejects a non-positive argument", for one call. *)
Definition rejects_non_positive (dims capacity : Z) : Prop :=
  dims <= 0 \/ capacity <= 0 -> create_hnsw_index dims capacity = None.

(** Two entries of equal distance stored in the order 3, 1. *)
Module TiedPair.
Definition v : list F32.float := [F32.of_Z 1; F32.of_Z 2].
Definition query : list F32.float := [F32.of_Z 1; F32.of_Z 2].
Definition index : hnsw_index :=
  {| dimensions := 2; max_elements := 8; vectors := [(3, v); (1, v)] |}.
Definition swapped : hnsw_index :=
  {| dimensions := 2; max_elements := 8; vectors := [(1, v); (3, v)] |}.
End TiedPair.

(** ** The sibling modules and the Python bindings *)

(** *** Memory regions, C strings and the console *)

(** A step that may be undefined, followed by the rest. *)
Definition and_then {A B} (o : option A) (k : A -> option B) : option B :=
  match o with Some a => k a | None => None end.

Notation "x <~ c ;; k" := (and_then c (fun x => k))
  (at level 61, c at next level, right associativity).

(** What a call sends to [std::cout], one string per line ended by
    [std::endl]. *)
Definition console : Type := list String.string.

Module Mem.

Definition NUL : Byte.byte := Byte.x00.

(** The C string a region starts with: the characters before its first
    NUL.  Undefined when the region holds no NUL. *)
Fixpoint c_str (region : list Byte.byte) : option (list Byte.byte) :=
  match region with
  | [] => None
  | c :: rest =>
      if Byte.eqb c NUL then Some []
      else option_map (cons c) (c_str rest)
  end.

(** [strlen]. *)
Definition strlen (region : list Byte.byte) : option Z :=
  option_map (fun s => Z.of_nat (length s)) (c_str region).

(** [p[i]] read and [p[i] = v]: undefined outside the region. *)
Definition load {A} (region : list A) (i : Z) : option A :=
  if i <? 0 then None else nth_error region (Z.to_nat i).

Definition store {A} (region : list A) (i : Z) (v : A) : option (list A) :=
  if (i <? 0) || (Z.of_nat (length region) <=? i) then None
  else Some (firstn (Z.to_nat i) region ++ v :: skipn (Z.to_nat i + 1) region).

(** [memcpy(dest, src, n)], [n] a [size_t]: the region [dest] after the
    copy.  Undefined when either region holds fewer than [n] bytes.  The
    two regions are taken to be distinct objects. *)
Definition memcpy (dest src : list Byte.byte) (n : Z) : option (list Byte.byte) :=
  if (Z.of_nat (length src) <? n) || (Z.of_nat (length dest) <? n) then None
  else Some (firstn (Z.to_nat n) src ++ skipn (Z.to_nat n) dest).

(** The [n] characters [strncpy] writes: those of the source string, as
    far as [n] allows, then NULs.  Undefined when the source region ends
    before a NUL and before [n] characters. *)
Fixpoint strncpy_chars (src : list Byte.byte) (n : nat) {struct n}
  : option (list Byte.byte) :=
  match n with
  | O => Some []
  | S n' =>
      match src with
      | [] => None
      | c :: rest =>
          if Byte.eqb c NUL then Some (repeat NUL n)
          else option_map (cons c) (strncpy_chars rest n')
      end
  end.

(** [strncpy(dest, src, n)]: the region [dest] afterwards. *)
Definition strncpy (dest src : list Byte.byte) (n : Z)
  : option (list Byte.byte) :=
  if Z.of_nat (length dest) <? n then None
  else
    chars <~ strncpy_chars src (Z.to_nat n) ;;
    Some (chars ++ skipn (Z.to_nat n) dest).

End Mem.

(** *** [inference_engine.cpp] *)

(** [struct onnx_runtime]: [char model_path[256]]. *)
Record onnx_runtime : Type := mk_onnx_runtime {
  model_path : list Byte.byte
}.

(** [create_onnx_runtime]: [new onnx_runtime()] zeroes the array,
    [strncpy] fills at most 255 characters and the last one is set to
    NUL.  A null [model_path] is handed to [strncpy] as it is. *)
Definition create_onnx_runtime (path : ptr (list Byte.byte))
  : option (ptr onnx_runtime * console) :=
  match path with
  | None => None
  | Some src =>
      copied <~ Mem.strncpy (repeat Mem.NUL 256) src (256 - 1) ;;
      terminated <~ Mem.store copied (256 - 1) Mem.NUL ;;
      text <~ Mem.c_str terminated ;;
      Some (Some {| model_path := terminated |},
            [String.append "Created ONNX runtime with model: "
               (String.string_of_list_byte text)])
  end.

(** The first loop of [run_inference],
    [for (int i = 0; i < copy_size; ++i) output_data[i] = input_data[i];],
    at index [i] with [n] iterations left. *)
Fixpoint copy_loop (input_data output_data : list F32.float) (i : Z) (n : nat)
  : option (list F32.float) :=
  match n with
  | O => Some output_data
  | S n' =>
      v <~ Mem.load input_data i ;;
      output_data' <~ Mem.store output_data i v ;;
      copy_loop input_data output_data' (i + 1) n'
  end.

(** The second loop,
    [for (int i = copy_size; i < output_size; ++i) output_data[i] = 0.0f;]. *)
Fixpoint zero_loop (output_data : list F32.float) (i : Z) (n : nat)
  : option (list F32.float) :=
  match n with
  | O => Some output_data
  | S n' =>
      output_data' <~ Mem.store output_data i F32.zero ;;
      zero_loop output_data' (i + 1) n'
  end.

(** [run_inference]: the returned [int], the output buffer afterwards
    and the line printed.  The input and output buffers are taken to be
    distinct objects. *)
Definition run_inference (runtime : onnx_runtime)
    (input_data : list F32.float) (input_size : Z)
    (output_data : list F32.float) (output_size : Z)
  : option (Z * list F32.float * console) :=
  text <~ Mem.c_str (model_path runtime) ;;
  let copy_size := Std.min input_size output_size in
  copied <~ copy_loop input_data output_data 0 (Z.to_nat copy_size) ;;
  filled <~ zero_loop copied copy_size (Z.to_nat (output_size - copy_size)) ;;
  Some (0, filled,
        [String.append "Running inference on model: "
           (String.string_of_list_byte text)]).

(** *** [vault_security.cpp] *)

(** [struct aes_vault]: [unsigned char key[32]]. *)
Record aes_vault : Type := mk_aes_vault {
  key : list Byte.byte
}.

(** [create_aes_vault]: the key array is zeroed, then the first
    [min(strlen(key), 32)] characters of a non-null [key] are copied in. *)
Definition create_aes_vault (key : ptr (list Byte.byte))
  : option (ptr aes_vault * console) :=
  let zeroed := repeat Mem.NUL 32 in
  match key with
  | Some src =>
      key_len <~ Mem.strlen src ;;
      copied <~ Mem.memcpy zeroed src (Std.min key_len 32) ;;
      Some (Some {| key := copied |}, ["Created AES-256 vault"%string])
  | None =>
      Some (Some {| key := zeroed |}, ["Created AES-256 vault"%string])
  end.

(** [encrypt_data]: the returned length, the [ciphertext] buffer
    afterwards and the line printed.  [vault] is not dereferenced. *)
Definition encrypt_data (vault : ptr aes_vault)
    (plaintext : list Byte.byte) (plaintext_len : Z)
    (ciphertext : list Byte.byte)
  : option (Z * list Byte.byte * console) :=
  ciphertext' <~ Mem.memcpy ciphertext plaintext (CInt.to_size_t plaintext_len) ;;
  Some (plaintext_len, ciphertext', ["Encrypting data with AES-256"%string]).

(** [decrypt_data]. *)
Definition decrypt_data (vault : ptr aes_vault)
    (ciphertext : list Byte.byte) (ciphertext_len : Z)
    (plaintext : list Byte.byte)
  : option (Z * list Byte.byte * console) :=
  plaintext' <~ Mem.memcpy plaintext ciphertext (CInt.to_size_t ciphertext_len) ;;
  Some (ciphertext_len, plaintext', ["Decrypting data with AES-256"%string]).

(** *** [bindings/python/pybind11_bindings.cpp] *)

(** What a bound method gives Python: a value, or a C++ exception turned
    into a Python one. *)
Inductive py (A : Type) : Type :=
| Returned (a : A)
| Raised.
Arguments Returned {A} a.
Arguments Raised {A}.

(** [numpy_to_float_vector]: a vector holding the [buf_info.size]
    elements of the array. *)
Definition numpy_to_float_vector (input : list F32.float) : list F32.float :=
  firstn (length input) input.

(** A caller's buffer after the search has written [values] from its
    position 0 on. *)
Definition overwrite {A} (buffer values : list A) : list A :=
  values ++ skipn (length values) buffer.

(** [PyHNSWIndex::add_vector]: the code [add_vector_to_index] returns is
    dropped. *)
Definition PyHNSWIndex_add_vector (vector : list F32.float) (id : Z) : call unit :=
  let vec := numpy_to_float_vector vector in
  _ <- add_vector_to_index vec id ;;
  ret tt.

(** The loop of [PyHNSWIndex::search],
    [for (int i = 0; i < count; ++i) results.append({id: result_ids[i], distance: result_distances[i]})]. *)
Fixpoint collect (result_ids : list Z) (result_distances : list F32.float)
    (i : Z) (n : nat) : option (list (Z * F32.float)) :=
  match n with
  | O => Some []
  | S n' =>
      id <~ Mem.load result_ids i ;;
      distance <~ Mem.load result_distances i ;;
      rest <~ collect result_ids result_distances (i + 1) n' ;;
      Some ((id, distance) :: rest)
  end.

(** [PyHNSWIndex::search].  [std::vector<int> result_ids(k)] throws for a
    negative [k], converted to a size beyond [max_size()]; otherwise both
    buffers hold [k] zeros when the search is called. *)
Definition PyHNSWIndex_search (query : list F32.float) (k : Z)
  : call (py (list (Z * F32.float))) :=
  let query_vec := numpy_to_float_vector query in
  if k <? 0 then ret Raised
  else
    let result_ids := repeat 0 (Z.to_nat k) in
    let result_distances := repeat F32.zero (Z.to_nat k) in
    out <- search_vector_in_index query_vec k ;;
    let result_ids := overwrite result_ids (map fst (written out)) in
    let result_distances := overwrite result_distances (map snd (written out)) in
    let count := returned out in
    results <- lift (collect result_ids result_distances 0 (Z.to_nat count)) ;;
    ret (Returned results).

(** [py::bytes(p, n)]: the [n] bytes at [p]. *)
Definition bytes_at (region : list Byte.byte) (n : Z) : option (list Byte.byte) :=
  if Z.of_nat (length region) <? n then None
  else Some (firstn (Z.to_nat n) region).

(** [PyAESVault::encrypt]: [plain_str.c_str()] points at the bytes of the
    argument followed by a NUL, [plain_str.size()] is converted to [int]. *)
Definition PyAESVault_encrypt (vault : ptr aes_vault) (plaintext : list Byte.byte)
  : option (list Byte.byte * console) :=
  let plain_str := plaintext in
  let ciphertext := repeat Byte.x00 (length plain_str) in
  r <~ encrypt_data vault (plain_str ++ [Mem.NUL])
         (CInt.to_int (Z.of_nat (length plain_str))) ciphertext ;;
  let '(len, ciphertext, said) := r in
  bytes <~ bytes_at ciphertext (CInt.to_size_t len) ;;
  Some (bytes, said).

(** [PyAESVault::decrypt]. *)
Definition PyAESVault_decrypt (vault : ptr aes_vault) (ciphertext : list Byte.byte)
  : option (list Byte.byte * console) :=
  let cipher_str := ciphertext in
  let plaintext := repeat Byte.x00 (length cipher_str) in
  r <~ decrypt_data vault (cipher_str ++ [Mem.NUL])
         (CInt.to_int (Z.of_nat (length cipher_str))) plaintext ;;
  let '(len, plaintext, said) := r in
  bytes <~ bytes_at plaintext (CInt.to_size_t len) ;;
  Some (bytes, said).

(** *** Inputs of the sibling modules' tests and a few more *)

Module Samples.
(** ["test_model.onnx"], ["test_key_12345"] and ["Hello, FlashCore!"]. *)
Definition model_name : list Byte.byte :=
  String.list_byte_of_string "test_model.onnx".
Definition key_text : list Byte.byte :=
  String.list_byte_of_string "test_key_12345".
Definition hello : list Byte.byte :=
  String.list_byte_of_string "Hello, FlashCore!".
(** Two keys of 33 characters that differ in the last one. *)
Definition long_key_b : list Byte.byte := repeat Byte.x61 32 ++ [Byte.x62].
Definition long_key_c : list Byte.byte := repeat Byte.x61 32 ++ [Byte.x63].
(** A runtime whose path is ["m"]. *)
Definition runtime : onnx_runtime :=
  {| model_path := Byte.x6d :: repeat Mem.NUL 255 |}.
Definition input : list F32.float :=
  [F32.of_Z 1; F32.of_Z 2; F32.of_Z 3; F32.of_Z 4].
Definition output : list F32.float :=
  [F32.of_Z 9; F32.of_Z 9; F32.of_Z 9; F32.of_Z 9; F32.of_Z 9].
Definition buffer : list Byte.byte := repeat Byte.xff 20.
End Samples.

(** *** Vocabulary for the further properties *)

(** The entry an accepted call stores. *)
Definition entry_of (dims : Z) (c : list F32.float * Z) : Z * list F32.float :=
  (snd c, firstn (Z.to_nat dims) (fst c)).

(** The characters of a C string: none is NUL. *)
Definition c_chars (s : list Byte.byte) : Prop :=
  Forall (fun c => c <> Mem.NUL) s.

(** *** Two sentences of the specification as they are worded *)

(** "The search returns exactly [k] results, the first [k] pairs of the
    ascending distance order, never fewer", of one search. *)
Definition returns_k_nearest (index : hnsw_index)
    (query : list F32.float) (k : Z) : Prop :=
  forall out index',
    search_vector_in_index query k index = Some (out, index') ->
    returned out = k
    /\ Z.of_nat (length (written out)) = k
    /\ exists sorted,
         Permutation sorted (keyed (dimensions index) query (vectors index))
         /\ StronglySorted dist_le sorted
         /\ written out = map as_result (firstn (Z.to_nat k) sorted).

(** "The result sequence is the ascending lexicographic order of
    (distance, identifier) pairs truncated to [k]", of one search. *)
Definition lexicographic_results (index : hnsw_index)
    (query : list F32.float) (k : Z) : Prop :=
  forall out index',
    search_vector_in_index query k index = Some (out, index') ->
    exists sorted,
      Permutation sorted (keyed (dimensions index) query (vectors index))
      /\ StronglySorted lex_le sorted
      /\ written out = map as_result (firstn (Z.to_nat k) sorted).

(** An index of 2^31 entries, as 2^31 insertions leave one created with
    dimension 0 and capacity -1 ([empty]). *)
Module Crowded.
Definition count : nat := Z.to_nat (2 ^ 31).
Definition empty : hnsw_index :=
  {| dimensions := 0; max_elements := -1; vectors := [] |}.
Definition index : hnsw_index :=
  {| dimensions := 0; max_elements := -1; vectors := repeat (7, []) count |}.
End Crowded.

(** Four entries of dimension 1 at distances 1, 2, NaN and 1.5 of the
    query [0.0], identifiers ascending.  No element compares less than
    the one before it, so the insertion pass that libstdc++ and libc++
    run on so short a range moves nothing. *)
Module WithNaN.
Definition query : list F32.float := [F32.zero].
Definition index : hnsw_index :=
  {| dimensions := 1; max_elements := 8;
     vectors := [(0, [F32.of_Z 1]); (1, [F32.of_Z 2]);
                 (2, [S754_nan]); (3, [F32.halves 3])] |}.
End WithNaN.

(** * Facts *)

(** ** Order and sign of binary32 values *)

Module F32Facts.

Ltac compare_cases :=
  repeat match goal with
  | |- context [Z.compare ?x ?y] =>
      destruct (Z.compare_spec x y); subst
  | H : context [Z.compare ?x ?y] |- _ =>
      destruct (Z.compare_spec x y); subst
  | |- context [Pos.compare_cont Eq ?x ?y] =>
      change (Pos.compare_cont Eq x y) with (Pos.compare x y);
      destruct (Pos.compare_spec x y); subst
  | H : context [Pos.compare_cont Eq ?x ?y] |- _ =>
      change (Pos.compare_cont Eq x y) with (Pos.compare x y) in H;
      destruct (Pos.compare_spec x y); subst
  end.

Ltac by_cases :=
  simpl; try discriminate; try reflexivity; intros;
  compare_cases; simpl in *; try discriminate; try reflexivity; try lia.

Lemma ltb_trans a b c :
  F32.ltb a b = true -> F32.ltb b c = true -> F32.ltb a c = true.
Proof.
  unfold F32.ltb, SFltb, SFcompare.
  destruct a as [[]|[]| |[] ma ea], b as [[]|[]| |[] mb eb],
           c as [[]|[]| |[] mc ec]; by_cases.
Qed.

Lemma ltb_asym a b : F32.ltb a b = true -> F32.ltb b a = false.
Proof.
  unfold F32.ltb, SFltb, SFcompare.
  destruct a as [[]|[]| |[] ma ea], b as [[]|[]| |[] mb eb]; by_cases.
Qed.

Lemma ltb_irrefl a : F32.ltb a a = false.
Proof.
  destruct (F32.ltb a a) eqn:E; [|reflexivity].
  now rewrite (ltb_asym _ _ E) in E.
Qed.

(** Two values that are neither NaN nor [-0.0] and of which neither is
    less than the other are the same value. *)
Lemma ltb_total a b :
  F32.is_nan a = false -> F32.nonneg a ->
  F32.is_nan b = false -> F32.nonneg b ->
  F32.ltb a b = false -> F32.ltb b a = false -> a = b.
Proof.
  unfold F32.ltb, SFltb, SFcompare.
  destruct a as [[]|[]| |[] ma ea], b as [[]|[]| |[] mb eb]; by_cases.
Qed.

(** Past a value that is not a NaN, "not less" chains. *)
Lemma ltb_not_less a b c :
  F32.is_nan b = false ->
  F32.ltb a b = false -> F32.ltb b c = false -> F32.ltb a c = false.
Proof.
  unfold F32.ltb, SFltb, SFcompare.
  destruct a as [[]|[]| |[] ma ea], b as [[]|[]| |[] mb eb],
           c as [[]|[]| |[] mc ec]; by_cases.
Qed.

(** Two values equal to a third are not less than one another. *)
Lemma eqb_class a b d :
  F32.eqb a d = true -> F32.eqb b d = true -> F32.ltb a b = false.
Proof.
  unfold F32.eqb, F32.ltb, SFeqb, SFltb, SFcompare.
  destruct a as [[]|[]| |[] ma ea], b as [[]|[]| |[] mb eb],
           d as [[]|[]| |[] md ed]; by_cases.
Qed.

Lemma round_aux_nonneg mx ex lx :
  F32.nonneg (binary_round_aux F32.prec F32.emax false mx ex lx).
Proof.
  unfold binary_round_aux.
  destruct (shr_fexp F32.prec F32.emax mx ex lx) as [mrs' e'].
  destruct (shr_fexp F32.prec F32.emax _ e' loc_Exact) as [mrs'' e''].
  destruct (shr_m mrs''); simpl; auto; destruct (_ <=? _); simpl; auto.
Qed.

Lemma mul_self_nonneg d : F32.nonneg (F32.mul d d).
Proof.
  destruct d as [[]|[]| |[] m e]; simpl; auto; apply round_aux_nonneg.
Qed.

Lemma add_nonneg a b :
  F32.nonneg a -> F32.nonneg b -> F32.nonneg (F32.add a b).
Proof.
  destruct a as [sa|sa| |sa ma ea], b as [sb|sb| |sb mb eb];
    simpl; intros; subst; simpl; auto.
  unfold binary_normalize, binary_round.
  destruct (shl_align ma ea (Z.min ea eb)) as [ma' ea'],
           (shl_align mb eb (Z.min ea eb)) as [mb' eb']; simpl.
  destruct (shl_align _ _ _). apply round_aux_nonneg.
Qed.

Lemma sqrt_nonneg a : F32.nonneg a -> F32.nonneg (F32.sqrt a).
Proof.
  destruct a as [sa|sa| |sa ma ea]; simpl; intros; subst; simpl; auto.
  destruct (SFsqrt_core_binary F32.prec F32.emax (Z.pos ma) ea)
    as [[mz ez] lz].
  apply round_aux_nonneg.
Qed.

(** *** Where a NaN can come from

    Rounding a non-negative mantissa never yields a NaN, so among the
    operations of the search only the subtraction can produce one, from a
    NaN or from two infinities. *)

Lemma shr_1_nonneg mrs : 0 <= shr_m mrs -> 0 <= shr_m (shr_1 mrs).
Proof.
  destruct mrs as [m r s]. simpl.
  destruct m as [|[p|p|]|[p|p|]]; simpl; lia.
Qed.

Lemma iter_shr_1_nonneg p : forall mrs,
  0 <= shr_m mrs -> 0 <= shr_m (iter_pos shr_1 p mrs).
Proof.
  induction p as [p IH|p IH|]; intros mrs H; simpl.
  - apply IH, IH. now apply shr_1_nonneg.
  - apply IH, IH. assumption.
  - now apply shr_1_nonneg.
Qed.

Lemma shr_fexp_nonneg m e l :
  0 <= m -> 0 <= shr_m (fst (shr_fexp F32.prec F32.emax m e l)).
Proof.
  intros Hm. unfold shr_fexp, shr.
  assert (H0 : 0 <= shr_m (shr_record_of_loc m l))
    by (destruct l as [|[]]; simpl; assumption).
  destruct (fexp _ _ _ - e); simpl; auto.
  now apply iter_shr_1_nonneg.
Qed.

Lemma round_nearest_even_nonneg m l : 0 <= m -> 0 <= round_nearest_even m l.
Proof.
  intros Hm. unfold round_nearest_even.
  destruct l as [|[]]; try destruct (Z.even m); lia.
Qed.

Lemma round_aux_not_nan s mx ex lx :
  0 <= mx -> F32.is_nan (binary_round_aux F32.prec F32.emax s mx ex lx) = false.
Proof.
  intros Hm. unfold binary_round_aux.
  pose proof (shr_fexp_nonneg mx ex lx Hm) as H1.
  destruct (shr_fexp F32.prec F32.emax mx ex lx) as [mrs' e']. simpl in H1.
  pose proof (shr_fexp_nonneg _ e' loc_Exact
                (round_nearest_even_nonneg _ (loc_of_shr_record mrs') H1)) as H2.
  destruct (shr_fexp F32.prec F32.emax _ e' loc_Exact) as [mrs'' e''].
  simpl in H2.
  destruct (shr_m mrs''); [reflexivity| |lia].
  destruct (_ <=? _); reflexivity.
Qed.

Lemma normalize_not_nan m e s :
  F32.is_nan (binary_normalize F32.prec F32.emax m e s) = false.
Proof.
  unfold binary_normalize, binary_round.
  destruct m; [reflexivity| |];
    destruct (shl_align _ _ _); apply round_aux_not_nan; lia.
Qed.

Lemma sub_finite a b :
  F32.is_finite a = true -> F32.is_finite b = true -> F32.is_nan (F32.sub a b) = false.
Proof.
  destruct a as [sa|sa| |sa ma ea], b as [sb|sb| |sb mb eb];
    try discriminate; intros _ _; simpl.
  - destruct sa, sb; reflexivity.
  - reflexivity.
  - reflexivity.
  - apply normalize_not_nan.
Qed.

Lemma mul_self_not_nan d :
  F32.is_nan d = false -> F32.is_nan (F32.mul d d) = false.
Proof.
  destruct d as [s|s| |s m e]; try discriminate; intros _; simpl;
    try reflexivity.
  apply round_aux_not_nan. lia.
Qed.

Lemma add_nonneg_not_nan a b :
  F32.nonneg a -> F32.nonneg b ->
  F32.is_nan a = false -> F32.is_nan b = false ->
  F32.is_nan (F32.add a b) = false.
Proof.
  destruct a as [sa|sa| |sa ma ea], b as [sb|sb| |sb mb eb];
    try discriminate; simpl; intros -> -> _ _; try reflexivity.
  apply normalize_not_nan.
Qed.

Lemma sqrt_nonneg_not_nan a :
  F32.nonneg a -> F32.is_nan a = false -> F32.is_nan (F32.sqrt a) = false.
Proof.
  destruct a as [sa|sa| |sa ma ea]; try discriminate; simpl;
    intros -> _; try reflexivity.
  unfold SFsqrt_core_binary.
  set (m' := match _ - _ with Z0 => _ | Z.pos _ => _ | Z.neg _ => _ end).
  assert (Hm' : 0 <= m').
  { unfold m'. destruct (_ - _); try lia. apply Z.shiftl_nonneg. lia. }
  pose proof (Z.sqrtrem_spec m' Hm') as Hs.
  destruct (Z.sqrtrem m') as [q r].
  apply round_aux_not_nan. lia.
Qed.

End F32Facts.

(** ** [std::sort] *)

Section SortFacts.
Context {A : Type}.
Variable lt : A -> A -> bool.

Lemma insert_perm x l : Permutation (Std.insert lt x l) (x :: l).
Proof.
  induction l as [|y l IH]; simpl; [reflexivity|].
  destruct (lt y x); [|reflexivity].
  rewrite IH. apply perm_swap.
Qed.

Lemma sort_perm l : Permutation (Std.sort lt l) l.
Proof.
  induction l as [|x l IH]; simpl; [reflexivity|].
  rewrite insert_perm. now constructor.
Qed.

Lemma sort_length l : length (Std.sort lt l) = length l.
Proof. apply Permutation_length, sort_perm. Qed.

(** Stability: a class of elements none of which is less than another
    comes out in the order it went in. *)
Lemma insert_stable (f : A -> bool) x l :
  (forall a b, f a = true -> f b = true -> lt a b = false) ->
  filter f (Std.insert lt x l) = filter f (x :: l).
Proof.
  intros Hf. induction l as [|y l IH]; [reflexivity|].
  simpl. destruct (lt y x) eqn:E; [|reflexivity].
  simpl. rewrite IH. simpl.
  destruct (f y) eqn:Fy, (f x) eqn:Fx; try reflexivity.
  rewrite (Hf y x Fy Fx) in E. discriminate.
Qed.

Lemma sort_stable (f : A -> bool) l :
  (forall a b, f a = true -> f b = true -> lt a b = false) ->
  filter f (Std.sort lt l) = filter f l.
Proof.
  intros Hf. induction l as [|x l IH]; [reflexivity|].
  simpl Std.sort. rewrite insert_stable by assumption.
  simpl. now rewrite IH.
Qed.

Variable P : A -> Prop.

Lemma sort_keeps l : Forall P l -> Forall P (Std.sort lt l).
Proof.
  intros H. eapply Permutation_Forall; [|exact H].
  symmetry. apply sort_perm.
Qed.

(** On the elements, which satisfy [P], [lt] is a strict weak ordering:
    what [std::sort] asks of its comparison. *)
Section WeakOrder.
Hypothesis lt_asym : forall x y, P x -> P y ->
  lt x y = true -> lt y x = false.
Hypothesis lt_not_less : forall x y z, P x -> P y -> P z ->
  lt x y = false -> lt y z = false -> lt x z = false.

Lemma insert_ascending x l :
  P x -> Forall P l ->
  Std.ascending lt l -> Std.ascending lt (Std.insert lt x l).
Proof.
  intros Px. induction l as [|y l IH]; intros Pl Hs; simpl.
  - repeat constructor.
  - inversion Pl as [|? ? Py Pl']; subst.
    apply StronglySorted_inv in Hs. destruct Hs as [Hs Hy].
    destruct (lt y x) eqn:E.
    + constructor; [apply IH; assumption|].
      eapply Permutation_Forall; [symmetry; apply insert_perm|].
      constructor; [apply lt_asym; assumption|assumption].
    + constructor; [constructor; assumption|].
      constructor; [exact E|].
      rewrite Forall_forall in *. intros z Hz.
      apply (lt_not_less z y x); auto.
      apply (Hy z Hz).
Qed.

Lemma sort_ascending l : Forall P l -> Std.ascending lt (Std.sort lt l).
Proof.
  induction l as [|x l IH]; intros Pl; simpl; [constructor|].
  inversion Pl; subst.
  apply insert_ascending; auto using sort_keeps.
Qed.
End WeakOrder.

(** ... and a strict total order, as [operator<] of the pairs is. *)
Section TotalOrder.
Hypothesis lt_trans : forall x y z, P x -> P y -> P z ->
  lt x y = true -> lt y z = true -> lt x z = true.
Hypothesis lt_asym : forall x y, P x -> P y ->
  lt x y = true -> lt y x = false.
Hypothesis lt_total : forall x y, P x -> P y ->
  lt x y = false -> lt y x = false -> x = y.

Lemma not_less_trans x y z : P x -> P y -> P z ->
  lt x y = false -> lt y z = false -> lt x z = false.
Proof.
  intros Px Py Pz Hxy Hyz.
  destruct (lt x z) eqn:Exz; [|reflexivity].
  destruct (lt y x) eqn:Eyx.
  - rewrite (lt_trans y x z) in Hyz; auto.
  - rewrite (lt_total x y Px Py Hxy Eyx) in Exz. congruence.
Qed.

Lemma sort_ascending_total l :
  Forall P l -> Std.ascending lt (Std.sort lt l).
Proof. apply sort_ascending; [exact lt_asym|exact not_less_trans]. Qed.

Lemma ascending_unique l1 : forall l2,
  Forall P l1 -> Permutation l1 l2 ->
  Std.ascending lt l1 -> Std.ascending lt l2 -> l1 = l2.
Proof.
  induction l1 as [|a l1 IH]; intros l2 Pl Hp H1 H2.
  - apply Permutation_nil in Hp. now subst.
  - destruct l2 as [|b l2];
      [symmetry in Hp; now apply Permutation_nil in Hp|].
    assert (Pl2 : Forall P (b :: l2)) by (eapply Permutation_Forall; eauto).
    apply StronglySorted_inv in H1, H2.
    destruct H1 as [H1 Ha], H2 as [H2 Hb].
    inversion Pl as [|? ? Pa Pl1]; inversion Pl2 as [|? ? Pb Pl2']; subst.
    assert (Hab : a = b).
    { assert (Ia : In a (b :: l2))
        by (eapply Permutation_in; [exact Hp|now left]).
      assert (Ib : In b (a :: l1))
        by (eapply Permutation_in; [symmetry; exact Hp|now left]).
      rewrite Forall_forall in Ha, Hb.
      destruct Ia as [->|Ia]; [reflexivity|].
      destruct Ib as [->|Ib]; [reflexivity|].
      apply lt_total; auto.
      - apply (Hb a Ia).
      - apply (Ha b Ib). }
    subst b. f_equal. apply Permutation_cons_inv in Hp. auto.
Qed.

(** Whatever algorithm [std::sort] runs, its result is this one. *)
Lemma sort_unique l l' :
  Forall P l -> Permutation l' l -> Std.ascending lt l' ->
  l' = Std.sort lt l.
Proof.
  intros Pl Hp Hs.
  apply ascending_unique; auto.
  - eapply Permutation_Forall; [symmetry; exact Hp|exact Pl].
  - rewrite Hp. symmetry. apply sort_perm.
  - apply sort_ascending_total; assumption.
Qed.

Lemma sort_permuted l1 l2 :
  Forall P l1 -> Permutation l1 l2 -> Std.sort lt l1 = Std.sort lt l2.
Proof.
  intros Pl Hp. apply sort_unique.
  - eapply Permutation_Forall; eauto.
  - rewrite sort_perm. exact Hp.
  - apply sort_ascending_total; assumption.
Qed.

End TotalOrder.

End SortFacts.

(** ** [operator<] on (distance, identifier) pairs *)

Lemma pair_lt_asym x y : Std.pair_lt x y = true -> Std.pair_lt y x = false.
Proof.
  destruct x as [dx ix], y as [dy iy]. unfold Std.pair_lt. simpl.
  destruct (F32.ltb dx dy) eqn:E; simpl.
  - intros _. now rewrite (F32Facts.ltb_asym _ _ E).
  - destruct (F32.ltb dy dx); simpl; [discriminate|]. lia.
Qed.

Lemma pair_lt_total x y : ordered_key x -> ordered_key y ->
  Std.pair_lt x y = false -> Std.pair_lt y x = false -> x = y.
Proof.
  destruct x as [dx ix], y as [dy iy]. unfold Std.pair_lt, ordered_key. simpl.
  intros [Nx Gx] [Ny Gy] H1 H2.
  destruct (F32.ltb dx dy) eqn:E1; [discriminate|].
  destruct (F32.ltb dy dx) eqn:E2; [discriminate|].
  simpl in *.
  rewrite (F32Facts.ltb_total dx dy) by assumption.
  f_equal. lia.
Qed.

Lemma pair_lt_trans x y z : ordered_key x -> ordered_key y -> ordered_key z ->
  Std.pair_lt x y = true -> Std.pair_lt y z = true -> Std.pair_lt x z = true.
Proof.
  destruct x as [dx ix], y as [dy iy], z as [dz iz].
  unfold Std.pair_lt, ordered_key. simpl.
  intros [Nx Gx] [Ny Gy] [Nz Gz] H1 H2.
  destruct (F32.ltb dx dy) eqn:Exy.
  - destruct (F32.ltb dy dz) eqn:Eyz.
    + now rewrite (F32Facts.ltb_trans _ _ _ Exy Eyz).
    + destruct (F32.ltb dz dy) eqn:Ezy; [discriminate|].
      rewrite <- (F32Facts.ltb_total dy dz) by assumption.
      now rewrite Exy.
  - destruct (F32.ltb dy dx) eqn:Eyx; [discriminate|].
    rewrite (F32Facts.ltb_total dx dy) by assumption.
    destruct (F32.ltb dy dz); [reflexivity|].
    destruct (F32.ltb dz dy); [discriminate|].
    simpl in *. lia.
Qed.

Lemma not_after_lex a b : ordered_key a -> ordered_key b ->
  Std.not_after Std.pair_lt a b -> lex_le a b.
Proof.
  destruct a as [da ia], b as [db ib].
  unfold Std.not_after, Std.pair_lt, lex_le, ordered_key. simpl.
  intros [Na Ga] [Nb Gb] H.
  destruct (F32.ltb db da) eqn:E1; [discriminate|].
  destruct (F32.ltb da db) eqn:E2; [now left|].
  right. simpl in H. split; [|lia].
  apply F32Facts.ltb_total; assumption.
Qed.

Lemma not_after_dist a b : Std.not_after Std.pair_lt a b -> dist_le a b.
Proof.
  unfold Std.not_after, Std.pair_lt, dist_le.
  destruct (F32.ltb (fst b) (fst a)); [discriminate|reflexivity].
Qed.

(** ** The ranking of the specification *)

(** Sorting by distance alone puts the keys in ascending order of
    distance and keeps the keys of one distance in insertion order. *)
Lemma insertion_order_ranking_ascending dims query vecs :
  Forall (fun p => F32.is_nan (fst p) = false) (keyed dims query vecs) ->
  StronglySorted dist_le (insertion_order_ranking dims query vecs).
Proof.
  intros Hn. unfold insertion_order_ranking.
  apply (sort_ascending by_distance (fun p => F32.is_nan (fst p) = false)).
  - intros x y _ _. apply F32Facts.ltb_asym.
  - intros x y z _ Hy _. now apply F32Facts.ltb_not_less.
  - exact Hn.
Qed.

Lemma insertion_order_ranking_stable dims query vecs d :
  filter (fun p => F32.eqb (fst p) d) (insertion_order_ranking dims query vecs)
  = filter (fun p => F32.eqb (fst p) d) (keyed dims query vecs).
Proof.
  unfold insertion_order_ranking. apply sort_stable.
  intros a b. unfold by_distance. apply F32Facts.eqb_class.
Qed.

Lemma insertion_order_ranking_perm dims query vecs :
  Permutation (insertion_order_ranking dims query vecs)
    (keyed dims query vecs).
Proof. apply sort_perm. Qed.

(** ** Integer conversions *)

Lemma to_size_t_small x : 0 <= x < CInt.SIZE_MODULUS -> CInt.to_size_t x = x.
Proof. intros H. unfold CInt.to_size_t. now apply Z.mod_small. Qed.

Lemma to_size_t_int x : CInt.is_int x -> 0 <= x -> CInt.to_size_t x = x.
Proof.
  unfold CInt.is_int, CInt.INT_MAX. intros H Hx.
  apply to_size_t_small. unfold CInt.SIZE_MODULUS. lia.
Qed.

(** A negative [int] converts to one of the top 2^31 values of [size_t]. *)
Lemma to_size_t_negative x :
  CInt.is_int x -> x < 0 -> CInt.to_size_t x = CInt.SIZE_MODULUS + x.
Proof.
  unfold CInt.is_int, CInt.INT_MIN, CInt.to_size_t, CInt.SIZE_MODULUS.
  intros H Hx.
  symmetry. apply (Z.mod_unique _ _ (-1)); lia.
Qed.

Lemma to_int_small x : 0 <= x <= CInt.INT_MAX -> CInt.to_int x = x.
Proof.
  unfold CInt.INT_MAX, CInt.to_int. intros H.
  rewrite Z.mod_small by lia.
  destruct (x <? 2 ^ 31) eqn:E; [reflexivity|].
  apply Z.ltb_ge in E. lia.
Qed.

(** ** The loops of the search *)

Lemma accumulate_spec query stored n : forall i acc,
  (i + n <= length query)%nat -> (i + n <= length stored)%nat ->
  accumulate query stored i n acc
  = Some (fold_left
            (fun sum j =>
               let d := F32.sub (nth j query F32.zero) (nth j stored F32.zero) in
               F32.add sum (F32.mul d d))
            (seq i n) acc).
Proof.
  induction n as [|n IH]; intros i acc Hq Hs; [reflexivity|].
  simpl.
  rewrite (nth_error_nth' query F32.zero) by lia.
  rewrite (nth_error_nth' stored F32.zero) by lia.
  apply IH; lia.
Qed.

Lemma entry_distance_spec dims query stored :
  dims <= Z.of_nat (length query) -> dims <= Z.of_nat (length stored) ->
  entry_distance dims query stored
  = Some (euclidean_distance dims query stored).
Proof.
  intros Hq Hs. unfold entry_distance, euclidean_distance.
  rewrite accumulate_spec by lia. reflexivity.
Qed.

Lemma scan_spec dims query vecs : forall distances,
  dims <= Z.of_nat (length query) ->
  Forall (fun e => dims <= Z.of_nat (length (snd e))) vecs ->
  scan dims query vecs distances = Some (distances ++ keyed dims query vecs).
Proof.
  induction vecs as [|e vecs IH]; intros distances Hq Hv; simpl.
  - now rewrite app_nil_r.
  - inversion Hv as [|? ? He Hv']; subst.
    rewrite entry_distance_spec by assumption.
    rewrite IH by assumption.
    now rewrite <- app_assoc.
Qed.

Lemma copy_out_spec n : forall done rest,
  (n <= length rest)%nat ->
  copy_out (done ++ rest) (length done) n
  = Some (map as_result (firstn n rest)).
Proof.
  induction n as [|n IH]; intros done rest Hn; [reflexivity|].
  destruct rest as [|p rest]; [simpl in Hn; lia|].
  simpl.
  rewrite nth_error_app2, Nat.sub_diag by lia. simpl.
  replace (done ++ p :: rest) with ((done ++ [p]) ++ rest)
    by (now rewrite <- app_assoc).
  replace (S (length done)) with (length (done ++ [p]))
    by (rewrite length_app; simpl; lia).
  rewrite IH by (simpl in Hn; lia).
  reflexivity.
Qed.

(** The sum of squares never has its sign bit set, nor has its root. *)
Lemma euclidean_distance_nonneg dims a b :
  F32.nonneg (euclidean_distance dims a b).
Proof.
  unfold euclidean_distance. apply F32Facts.sqrt_nonneg.
  set (step := fun sum i => _).
  assert (H : forall l acc, F32.nonneg acc -> F32.nonneg (fold_left step l acc)).
  { induction l as [|i l IH]; intros acc Hacc; simpl; [assumption|].
    apply IH. unfold step. apply F32Facts.add_nonneg; [assumption|].
    apply F32Facts.mul_self_nonneg. }
  apply H. reflexivity.
Qed.

Lemma nth_finite l i :
  Forall (fun x => F32.is_finite x = true) l ->
  F32.is_finite (nth i l F32.zero) = true.
Proof.
  intros H. destruct (nth_in_or_default i l F32.zero) as [Hin| ->];
    [|reflexivity].
  rewrite Forall_forall in H. now apply H.
Qed.

(** Between vectors of finite components the distance is not a NaN (it
    may overflow to infinity). *)
Lemma euclidean_distance_not_nan dims a b :
  Forall (fun x => F32.is_finite x = true) a ->
  Forall (fun x => F32.is_finite x = true) b ->
  F32.is_nan (euclidean_distance dims a b) = false.
Proof.
  intros Ha Hb. unfold euclidean_distance.
  set (step := fun sum i => _).
  assert (H : forall l acc,
             F32.nonneg acc /\ F32.is_nan acc = false ->
             F32.nonneg (fold_left step l acc)
             /\ F32.is_nan (fold_left step l acc) = false).
  { induction l as [|i l IH]; intros acc [Hs Hn]; simpl; [now split|].
    apply IH. unfold step.
    assert (Hd : F32.is_nan (F32.sub (nth i a F32.zero) (nth i b F32.zero))
                 = false)
      by (apply F32Facts.sub_finite; now apply nth_finite).
    split.
    - apply F32Facts.add_nonneg; [assumption|apply F32Facts.mul_self_nonneg].
    - apply F32Facts.add_nonneg_not_nan; auto.
      + apply F32Facts.mul_self_nonneg.
      + now apply F32Facts.mul_self_not_nan. }
  destruct (H (seq 0 (Z.to_nat dims)) F32.zero) as [Hs Hn];
    [split; reflexivity|].
  now apply F32Facts.sqrt_nonneg_not_nan.
Qed.

Lemma finite_inputs_nan_free index query :
  finite_inputs index query -> nan_free index query.
Proof.
  intros [Hq Hv]. unfold nan_free, keyed. rewrite Forall_map.
  eapply Forall_impl; [|exact Hv]. simpl.
  intros e He. now apply euclidean_distance_not_nan.
Qed.

Lemma keyed_ordered index query :
  nan_free index query ->
  Forall ordered_key (keyed (dimensions index) query (vectors index)).
Proof.
  unfold nan_free, keyed. rewrite !Forall_map. apply Forall_impl.
  intros e He. split; [exact He|]. apply euclidean_distance_nonneg.
Qed.

Lemma keyed_length dims query vecs :
  length (keyed dims query vecs) = length vecs.
Proof. unfold keyed. apply length_map. Qed.

(** A search that passes the check on [k] and reads inside its buffers
    returns [k] and writes the first [k] pairs of the ranking. *)
Lemma search_spec index query k :
  valid_k index k -> countable index -> readable index query ->
  search_vector_in_index query k index
  = Some ({| returned := k;
             written := map as_result (firstn (Z.to_nat k) (ranking index query)) |},
          index).
Proof.
  intros [Hint [Hlo Hhi]] Hc [Hq Hv].
  unfold search_vector_in_index, bind, get.
  rewrite to_size_t_int by (auto; lia).
  replace (k <=? 0) with false by (symmetry; apply Z.leb_gt; lia).
  replace (size index <? k) with false by (symmetry; apply Z.ltb_ge; lia).
  change (false || false) with false. cbv iota.
  rewrite scan_spec by assumption.
  unfold lift, ret. rewrite app_nil_l.
  rewrite sort_length, keyed_length.
  fold (size index).
  rewrite to_int_small by (unfold countable, size in *; lia).
  unfold Std.min.
  replace (size index <? k) with false by (symmetry; apply Z.ltb_ge; lia).
  fold (ranking index query).
  assert (Hout := copy_out_spec (Z.to_nat k) [] (ranking index query)).
  simpl in Hout. rewrite Hout; [reflexivity|].
  unfold ranking. rewrite sort_length, keyed_length.
  unfold size in Hhi. lia.
Qed.

Lemma to_int_at_most x : 0 <= x -> CInt.to_int x <= x.
Proof.
  intros Hx. unfold CInt.to_int.
  pose proof (Z.mod_le x (2 ^ 32) Hx ltac:(lia)) as Hle.
  destruct (x mod 2 ^ 32 <? 2 ^ 31); lia.
Qed.

(** A search that passes the check on [k] and reads inside its buffers,
    whatever the stored count. *)
Lemma search_spec_any_count index query k :
  valid_k index k -> readable index query ->
  search_vector_in_index query k index
  = Some ({| returned := Std.min k (CInt.to_int (size index));
             written :=
               map as_result
                 (firstn (Z.to_nat (Std.min k (CInt.to_int (size index))))
                    (ranking index query)) |},
          index).
Proof.
  intros [Hint [Hlo Hhi]] [Hq Hv].
  unfold search_vector_in_index, bind, get.
  rewrite to_size_t_int by (auto; lia).
  replace (k <=? 0) with false by (symmetry; apply Z.leb_gt; lia).
  replace (size index <? k) with false by (symmetry; apply Z.ltb_ge; lia).
  change (false || false) with false. cbv iota.
  rewrite scan_spec by assumption.
  unfold lift, ret. rewrite app_nil_l.
  rewrite sort_length, keyed_length.
  fold (size index). fold (ranking index query).
  set (count := Std.min k (CInt.to_int (size index))).
  assert (Hcount : count <= size index).
  { unfold count, Std.min.
    pose proof (to_int_at_most (size index)).
    destruct (CInt.to_int (size index) <? k); lia. }
  assert (Hout := copy_out_spec (Z.to_nat count) [] (ranking index query)).
  cbn [app length] in Hout. rewrite Hout; [reflexivity|].
  unfold ranking. rewrite sort_length, keyed_length.
  unfold size in Hcount. lia.
Qed.

Lemma ranking_ascending index query :
  nan_free index query -> Std.ascending Std.pair_lt (ranking index query).
Proof.
  intros Hn. unfold ranking.
  apply (sort_ascending_total Std.pair_lt ordered_key).
  - exact pair_lt_trans.
  - intros x y _ _. apply pair_lt_asym.
  - exact pair_lt_total.
  - now apply keyed_ordered.
Qed.

Lemma ranking_perm index query :
  Permutation (ranking index query)
    (keyed (dimensions index) query (vectors index)).
Proof. apply sort_perm. Qed.

Lemma ranking_ordered index query :
  nan_free index query -> Forall ordered_key (ranking index query).
Proof.
  intros Hn. eapply Permutation_Forall.
  - symmetry. apply ranking_perm.
  - now apply keyed_ordered.
Qed.

(** ** Insertion *)

Lemma copy_range_spec vector n :
  0 <= n <= Z.of_nat (length vector) ->
  copy_range vector n = Some (firstn (Z.to_nat n) vector).
Proof.
  intros H. unfold copy_range.
  replace (n <? 0) with false by (symmetry; apply Z.ltb_ge; lia).
  replace (Z.of_nat (length vector) <? n) with false
    by (symmetry; apply Z.ltb_ge; lia).
  reflexivity.
Qed.

Lemma size_app index e :
  Z.of_nat (length (vectors index ++ [e])) = size index + 1.
Proof. unfold size. rewrite length_app. simpl. lia. Qed.

(** A full index of positive capacity turns the call away untouched. *)
Lemma add_full index vector id :
  CInt.is_int (max_elements index) -> 0 <= max_elements index ->
  max_elements index <= size index ->
  add_vector_to_index vector id index = Some (-1, index).
Proof.
  intros Hint Hpos Hfull. unfold add_vector_to_index, bind, get.
  rewrite to_size_t_int by assumption.
  replace (max_elements index <=? size index) with true
    by (symmetry; apply Z.leb_le; lia).
  reflexivity.
Qed.

(** Below the converted capacity the entry is appended. *)
Lemma add_room index vector id :
  size index < CInt.to_size_t (max_elements index) ->
  0 <= dimensions index <= Z.of_nat (length vector) ->
  add_vector_to_index vector id index
  = Some (0, {| dimensions := dimensions index;
                max_elements := max_elements index;
                vectors := vectors index
                           ++ [(id, firstn (Z.to_nat (dimensions index)) vector)] |}).
Proof.
  intros Hroom Hlen. unfold add_vector_to_index, bind, get.
  replace (CInt.to_size_t (max_elements index) <=? size index) with false
    by (symmetry; apply Z.leb_gt; lia).
  rewrite copy_range_spec by assumption. reflexivity.
Qed.

(** One call keeps the two parameters and adds at most one entry, and
    none beyond a positive capacity. *)
Lemma add_step index vector id code index' :
  add_vector_to_index vector id index = Some (code, index') ->
  dimensions index' = dimensions index
  /\ max_elements index' = max_elements index
  /\ (CInt.is_int (max_elements index) -> 0 < max_elements index ->
      size index <= max_elements index -> size index' <= max_elements index).
Proof.
  unfold add_vector_to_index, bind, get.
  destruct (CInt.to_size_t (max_elements index) <=? size index) eqn:E.
  - unfold ret. intros H. injection H as <- <-. auto.
  - destruct (copy_range vector (dimensions index)) as [vec|]; simpl;
      [|discriminate].
    unfold ret. intros H. injection H as <- <-. simpl.
    repeat split. intros Hint Hpos _.
    rewrite to_size_t_int in E by (auto; lia).
    apply Z.leb_gt in E. unfold size at 1. simpl.
    rewrite size_app. lia.
Qed.

(** Below the converted capacity the call does not return -1, whatever
    the buffer. *)
Lemma add_not_full index vector id code index' :
  size index < CInt.to_size_t (max_elements index) ->
  add_vector_to_index vector id index = Some (code, index') -> code = 0.
Proof.
  intros Hroom. unfold add_vector_to_index, bind, get.
  replace (CInt.to_size_t (max_elements index) <=? size index) with false
    by (symmetry; apply Z.leb_gt; lia).
  destruct (copy_range vector (dimensions index)); simpl; [|discriminate].
  unfold ret. intros H. now injection H as <- _.
Qed.

Lemma add_all_parameters calls : forall index codes index',
  add_all calls index = Some (codes, index') ->
  dimensions index' = dimensions index
  /\ max_elements index' = max_elements index.
Proof.
  induction calls as [|[vector id] calls IH]; intros index codes index'.
  - simpl. unfold ret. intros H. injection H as <- <-. auto.
  - simpl. unfold bind at 1.
    destruct (add_vector_to_index vector id index) as [[code index1]|] eqn:E;
      [|discriminate].
    destruct (add_step _ _ _ _ _ E) as (Hd & Hm & _).
    unfold bind.
    destruct (add_all calls index1) as [[codes1 index2]|] eqn:E2;
      [|discriminate].
    unfold ret. intros H. injection H as <- <-.
    destruct (IH _ _ _ E2) as [Hd2 Hm2]. split; congruence.
Qed.

Lemma add_all_capacity calls : forall index codes index',
  CInt.is_int (max_elements index) -> 0 < max_elements index ->
  size index <= max_elements index ->
  add_all calls index = Some (codes, index') ->
  max_elements index' = max_elements index
  /\ size index' <= max_elements index.
Proof.
  induction calls as [|[vector id] calls IH]; intros index codes index' Hint Hpos Hsz.
  - simpl. unfold ret. intros H. injection H as <- <-. auto.
  - simpl. unfold bind at 1.
    destruct (add_vector_to_index vector id index) as [[code index1]|] eqn:E;
      [|discriminate].
    destruct (add_step _ _ _ _ _ E) as (_ & Hm & Hs).
    specialize (Hs Hint Hpos Hsz).
    unfold bind.
    destruct (add_all calls index1) as [[codes1 index2]|] eqn:E2;
      [|discriminate].
    unfold ret. intros H. injection H as <- <-.
    destruct (IH index1 codes1 index2) as [Hm2 Hs2]; try congruence.
    split; congruence.
Qed.

Lemma add_all_negative calls : forall index,
  CInt.is_int (max_elements index) -> max_elements index < 0 ->
  0 <= dimensions index ->
  Forall (fun c => dimensions index <= Z.of_nat (length (fst c))) calls ->
  size index + Z.of_nat (length calls) <= CInt.SIZE_MODULUS - 2 ^ 31 ->
  exists index',
    add_all calls index = Some (map (fun _ => 0) calls, index')
    /\ size index' = size index + Z.of_nat (length calls).
Proof.
  induction calls as [|[vector id] calls IH]; intros index Hint Hneg Hd Hb Hsz.
  - exists index. simpl. split; [reflexivity|lia].
  - inversion Hb as [|? ? Hv Hb']; subst. simpl in Hv.
    simpl add_all. unfold bind at 1.
    rewrite add_room.
    + set (index1 := {| dimensions := _ |}).
      destruct (IH index1) as (index2 & Hrun & Hsize); auto.
      * unfold index1, size at 1. cbn [vectors]. rewrite size_app.
        cbn [length] in Hsz. lia.
      * exists index2. unfold bind. rewrite Hrun. unfold ret. cbn [map].
        split; [reflexivity|].
        rewrite Hsize. unfold index1, size at 1. cbn [vectors].
        rewrite size_app. cbn [length]. lia.
    + rewrite to_size_t_negative by assumption.
      unfold CInt.is_int, CInt.INT_MIN in Hint. cbn [length] in Hsz. lia.
    + lia.
Qed.

(** ** Order inside the written results *)

Lemma in_firstn {A} (x : A) n l : In x (firstn n l) -> In x l.
Proof.
  intros H. rewrite <- (firstn_skipn n l). apply in_or_app. now left.
Qed.

Lemma strongly_sorted_firstn {A} (R : A -> A -> Prop) n : forall l,
  StronglySorted R l -> StronglySorted R (firstn n l).
Proof.
  induction n as [|n IH]; intros l Hs; [constructor|].
  destruct l as [|a l]; [constructor|].
  apply StronglySorted_inv in Hs. destruct Hs as [Hs Ha].
  simpl. constructor; [auto|].
  rewrite Forall_forall in *. intros x Hx. apply Ha.
  eapply in_firstn; eauto.
Qed.

Lemma strongly_sorted_nth {A} (R : A -> A -> Prop) l :
  StronglySorted R l ->
  forall i j a b, (i < j)%nat ->
    nth_error l i = Some a -> nth_error l j = Some b -> R a b.
Proof.
  induction 1 as [|x l Hs IH Hx]; intros i j a b Hij Hi Hj.
  - destruct i; discriminate.
  - destruct j as [|j]; [lia|].
    destruct i as [|i]; simpl in *.
    + injection Hi as <-. rewrite Forall_forall in Hx.
      apply Hx. eapply nth_error_In; eauto.
    + apply (IH i j); auto. lia.
Qed.

Lemma strongly_sorted_impl {A} (R S : A -> A -> Prop) (P : A -> Prop) l :
  (forall a b, P a -> P b -> R a b -> S a b) ->
  Forall P l -> StronglySorted R l -> StronglySorted S l.
Proof.
  intros HRS Pl Hs. induction Hs as [|x l Hs IH Hx]; [constructor|].
  inversion Pl as [|? ? Px Pl']; subst.
  constructor; [auto|].
  rewrite Forall_forall in *. intros y Hy. apply HRS; auto.
Qed.

Lemma eqb_not_less a b : F32.eqb a b = true -> F32.ltb a b = false.
Proof.
  unfold F32.eqb, F32.ltb, SFeqb, SFltb.
  destruct (SFcompare a b) as [[]|]; try discriminate; reflexivity.
Qed.

Lemma firstn_length_le {A} (l : list A) k :
  1 <= k <= Z.of_nat (length l) ->
  Z.of_nat (length (firstn (Z.to_nat k) l)) = k.
Proof. intros H. rewrite length_firstn. lia. Qed.

(** ** The data model's invariant *)

Lemma copy_range_length vector n vec :
  copy_range vector n = Some vec -> Z.of_nat (length vec) = n.
Proof.
  unfold copy_range.
  destruct (n <? 0) eqn:E1; [discriminate|].
  destruct (Z.of_nat (length vector) <? n) eqn:E2; [discriminate|].
  apply Z.ltb_ge in E1, E2.
  intros H. injection H as <-. rewrite length_firstn. lia.
Qed.

Lemma created_well_formed dims capacity index :
  CInt.is_int capacity -> 0 < capacity ->
  create_hnsw_index dims capacity = Some index -> well_formed index.
Proof.
  intros Hint Hpos H. injection H as <-.
  unfold well_formed, size. simpl. repeat split; auto; try apply Hint; lia.
Qed.

Lemma add_keeps_well_formed index vector id code index' :
  well_formed index ->
  add_vector_to_index vector id index = Some (code, index') ->
  well_formed index'.
Proof.
  intros (Hint & Hpos & Hsz & Hv) H.
  destruct (add_step _ _ _ _ _ H) as (Hd & Hm & Hs).
  specialize (Hs Hint Hpos Hsz).
  unfold well_formed. rewrite Hm, Hd. repeat split; try apply Hint; auto.
  revert H. unfold add_vector_to_index, bind, get.
  destruct (CInt.to_size_t (max_elements index) <=? size index).
  - unfold ret. intros H. injection H as <- <-. exact Hv.
  - destruct (copy_range vector (dimensions index)) as [vec|] eqn:E; simpl;
      [|discriminate].
    unfold ret. intros H. injection H as <- <-. simpl.
    apply Forall_app. split; [exact Hv|].
    constructor; [|constructor]. simpl.
    now apply copy_range_length in E.
Qed.

Lemma add_all_keeps_well_formed calls : forall index codes index',
  well_formed index ->
  add_all calls index = Some (codes, index') -> well_formed index'.
Proof.
  induction calls as [|[vector id] calls IH]; intros index codes index' Hw.
  - simpl. unfold ret. intros H. now injection H as <- <-.
  - simpl. unfold bind at 1.
    destruct (add_vector_to_index vector id index) as [[code index1]|] eqn:E;
      [|discriminate].
    apply add_keeps_well_formed in E; [|assumption].
    unfold bind.
    destruct (add_all calls index1) as [[codes1 index2]|] eqn:E2;
      [|discriminate].
    unfold ret. intros H. injection H as <- <-. eauto.
Qed.

(** Every index of the data model has a count that fits [int] and stored
    vectors the search can read. *)
Lemma well_formed_countable index : well_formed index -> countable index.
Proof.
  unfold well_formed, countable, CInt.is_int. intros (Hint & _ & Hsz & _). lia.
Qed.

Lemma well_formed_readable index query :
  well_formed index ->
  dimensions index <= Z.of_nat (length query) -> readable index query.
Proof.
  intros (_ & _ & _ & Hv) Hq. split; [assumption|].
  eapply Forall_impl; [|exact Hv]. simpl. intros e He. lia.
Qed.

(** * The claims *)

(** ** Runs of the code on concrete inputs *)

Example f32_one_and_half :
  F32.add (F32.of_Z 1) (F32.halves 1) = F32.halves 3.
Proof. reflexivity. Qed.

Example f32_sqrt_nine : F32.sqrt (F32.of_Z 9) = F32.of_Z 3.
Proof. reflexivity. Qed.

Example test_adds :
  match create_hnsw_index 4 100 with
  | Some index =>
      add_all TestVectors.calls index
  | None => None
  end = Some ([0; 0; 0], TestVectors.filled).
Proof. reflexivity. Qed.

(** Identifiers 1 and 2 both lie at distance 1 of the query and 1 is
    written first; the test file's [assert(result_ids[0] == 2)] does not
    hold on this run. *)
Example test_search :
  search_vector_in_index TestVectors.query 3 TestVectors.filled
  = Some ({| returned := 3;
             written := [(1, F32.of_Z 1); (2, F32.of_Z 1); (3, F32.of_Z 3)] |},
          TestVectors.filled).
Proof. reflexivity. Qed.

Example tied_pair_built :
  match create_hnsw_index 2 8 with
  | Some index => add_all [(TiedPair.v, 3); (TiedPair.v, 1)] index
  | None => None
  end = Some ([0; 0], TiedPair.index).
Proof. reflexivity. Qed.

(** Closed comparisons of integers, by evaluation. *)
Ltac by_evaluation :=
  repeat split;
  try (vm_compute; try reflexivity; let H := fresh in intros H; discriminate H).

(** The hypotheses gathered in front of a concrete instance. *)
Ltac gathered :=
  repeat first
    [ assumption | reflexivity | match goal with |- _ /\ _ => split end ].

Lemma test_valid_k : valid_k TestVectors.filled 3.
Proof. unfold valid_k, CInt.is_int. by_evaluation. Qed.

Lemma test_countable : countable TestVectors.filled.
Proof. unfold countable. by_evaluation. Qed.

Lemma test_readable : readable TestVectors.filled TestVectors.query.
Proof. unfold readable. split; [|repeat constructor]; by_evaluation. Qed.

Lemma test_nan_free : nan_free TestVectors.filled TestVectors.query.
Proof. unfold nan_free. simpl. repeat constructor. Qed.

Lemma tied_valid_k : valid_k TiedPair.index 2.
Proof. unfold valid_k, CInt.is_int. by_evaluation. Qed.

Lemma tied_countable : countable TiedPair.index.
Proof. unfold countable. by_evaluation. Qed.

Lemma tied_readable : readable TiedPair.index TiedPair.query.
Proof. unfold readable. split; [|repeat constructor]; by_evaluation. Qed.

Lemma tied_nan_free : nan_free TiedPair.index TiedPair.query.
Proof. unfold nan_free. simpl. repeat constructor. Qed.

(** ** Construction *)

(** C2, as stated, fails: [create_hnsw_index 0 0] hands back an index
    although both arguments are non-positive. *)
Lemma construction_accepts_non_positive :
  ~ rejects_non_positive 0 0
  /\ create_hnsw_index 0 0
     = Some {| dimensions := 0; max_elements := 0; vectors := [] |}.
Proof.
  split; [|reflexivity].
  unfold rejects_non_positive. intros H.
  assert (E : create_hnsw_index 0 0 = None) by (apply H; left; lia).
  discriminate E.
Qed.

(** C2, amended: construction never fails.  For every pair of arguments,
    non-positive ones included, it returns a handle to an index that
    holds the two arguments and no entry; an index built with capacity 0
    turns every insertion away. *)
Theorem construction_never_fails (dims capacity : Z) :
  exists index,
    create_hnsw_index dims capacity = Some index
    /\ dimensions index = dims
    /\ max_elements index = capacity
    /\ vectors index = []
    /\ (capacity = 0 ->
        forall vector id,
          add_vector_to_index vector id index = Some (-1, index)).
Proof.
  eexists. split; [reflexivity|]. repeat split.
  intros -> vector id. reflexivity.
Qed.

(** ** Insertion *)

(** C3: from an index created with a positive capacity, after any run of
    insertions the stored count is at most the capacity, and once it
    equals the capacity every further insertion returns -1 (index full)
    and leaves the index as it is. *)
Theorem capacity_never_exceeded
    (dims capacity : Z) (calls : list (list F32.float * Z))
    (index0 index : hnsw_index) (codes : list Z) :
  CInt.is_int capacity -> 0 < capacity ->
  create_hnsw_index dims capacity = Some index0 ->
  add_all calls index0 = Some (codes, index) ->
  size index <= capacity
  /\ (size index = capacity ->
      forall vector id,
        add_vector_to_index vector id index = Some (-1, index)).
Proof.
  intros Hint Hpos Hc Hrun.
  injection Hc as <-.
  apply add_all_capacity in Hrun; simpl; auto; [|unfold size; simpl; lia].
  simpl in Hrun. destruct Hrun as [Hm Hs].
  split; [assumption|].
  intros Hfull vector id. apply add_full; rewrite Hm; auto; lia.
Qed.

Lemma capacity_never_exceeded_witness :
  (CInt.is_int 2 /\ 0 < 2
   /\ create_hnsw_index 4 2 = Some CapacityTwo.empty
   /\ add_all TestVectors.calls CapacityTwo.empty
      = Some ([0; 0; -1], CapacityTwo.full))
  /\ size CapacityTwo.full <= 2
  /\ (size CapacityTwo.full = 2 ->
      forall vector id,
        add_vector_to_index vector id CapacityTwo.full
        = Some (-1, CapacityTwo.full)).
Proof.
  assert (H1 : CInt.is_int 2) by (unfold CInt.is_int; by_evaluation).
  assert (H2 : 0 < 2) by reflexivity.
  split; [gathered|].
  exact (capacity_never_exceeded 4 2 TestVectors.calls CapacityTwo.empty
           CapacityTwo.full [0; 0; -1] H1 H2 eq_refl eq_refl).
Defined.

(** C7: with the stored count below the capacity, an insertion returns 0
    and appends the one entry made of the identifier and the first
    [dimensions] floats of the buffer (what follows them in the buffer
    plays no part); the count grows by one and every entry stored before
    is found unchanged at its position. *)
Theorem add_appends_one_entry
    (index : hnsw_index) (vector : list F32.float) (id : Z) :
  CInt.is_int (max_elements index) ->
  size index < max_elements index ->
  0 <= dimensions index <= Z.of_nat (length vector) ->
  exists index',
    add_vector_to_index vector id index = Some (0, index')
    /\ vectors index'
       = vectors index ++ [(id, firstn (Z.to_nat (dimensions index)) vector)]
    /\ size index' = size index + 1
    /\ (forall i, (i < length (vectors index))%nat ->
          nth_error (vectors index') i = nth_error (vectors index) i)
    /\ dimensions index' = dimensions index
    /\ max_elements index' = max_elements index
    /\ (forall excess,
          add_vector_to_index
            (firstn (Z.to_nat (dimensions index)) vector ++ excess) id index
          = Some (0, index')).
Proof.
  intros Hint Hroom Hlen.
  assert (Hsz : 0 <= size index) by (unfold size; lia).
  assert (Hcap : size index < CInt.to_size_t (max_elements index))
    by (rewrite to_size_t_int by (auto; lia); assumption).
  eexists. split; [apply add_room; assumption|].
  cbn [vectors dimensions max_elements].
  split; [reflexivity|].
  split; [unfold size at 1; cbn [vectors]; apply size_app|].
  split; [intros i Hi; now apply nth_error_app1|].
  split; [reflexivity|]. split; [reflexivity|].
  intros excess.
  assert (Hn : length (firstn (Z.to_nat (dimensions index)) vector)
               = Z.to_nat (dimensions index))
    by (rewrite length_firstn; lia).
  rewrite add_room; [|assumption|rewrite length_app; lia].
  rewrite firstn_app, Hn, Nat.sub_diag, firstn_O, app_nil_r.
  rewrite firstn_firstn, Nat.min_id. reflexivity.
Qed.

Lemma add_appends_one_entry_witness :
  (CInt.is_int (max_elements LongBuffer.index)
   /\ size LongBuffer.index < max_elements LongBuffer.index
   /\ 0 <= dimensions LongBuffer.index
        <= Z.of_nat (length LongBuffer.vector))
  /\ exists index',
       add_vector_to_index LongBuffer.vector 9 LongBuffer.index
       = Some (0, index')
       /\ vectors index'
          = vectors LongBuffer.index
            ++ [(9, firstn (Z.to_nat (dimensions LongBuffer.index))
                      LongBuffer.vector)]
       /\ size index' = size LongBuffer.index + 1
       /\ (forall i, (i < length (vectors LongBuffer.index))%nat ->
             nth_error (vectors index') i
             = nth_error (vectors LongBuffer.index) i)
       /\ dimensions index' = dimensions LongBuffer.index
       /\ max_elements index' = max_elements LongBuffer.index
       /\ (forall excess,
             add_vector_to_index
               (firstn (Z.to_nat (dimensions LongBuffer.index))
                  LongBuffer.vector ++ excess) 9 LongBuffer.index
             = Some (0, index')).
Proof.
  assert (H1 : CInt.is_int (max_elements LongBuffer.index))
    by (unfold CInt.is_int; by_evaluation).
  assert (H2 : size LongBuffer.index < max_elements LongBuffer.index)
    by reflexivity.
  assert (H3 : 0 <= dimensions LongBuffer.index
               <= Z.of_nat (length LongBuffer.vector))
    by by_evaluation.
  split; [gathered|].
  exact (add_appends_one_entry LongBuffer.index LongBuffer.vector 9 H1 H2 H3).
Defined.

(** C10: on an index created with a negative capacity the fullness test
    compares the stored count with the capacity converted to [size_t], a
    value of at least 2^64 - 2^31.  So no insertion returns -1: every one
    of a run of insertions returns 0, the stored count ends equal to the
    number of insertions, however large below the converted capacity, and
    one more insertion does not return -1 either. *)
Theorem negative_capacity_never_full
    (dims capacity : Z) (calls : list (list F32.float * Z))
    (index0 : hnsw_index) :
  CInt.is_int capacity -> capacity < 0 -> 0 <= dims ->
  create_hnsw_index dims capacity = Some index0 ->
  Forall (fun c => dims <= Z.of_nat (length (fst c))) calls ->
  Z.of_nat (length calls) < CInt.SIZE_MODULUS - 2 ^ 31 ->
  CInt.SIZE_MODULUS - 2 ^ 31 <= CInt.to_size_t capacity
  /\ exists index,
       add_all calls index0 = Some (map (fun _ => 0) calls, index)
       /\ size index = Z.of_nat (length calls)
       /\ forall vector id code index',
            add_vector_to_index vector id index = Some (code, index') ->
            code = 0.
Proof.
  intros Hint Hneg Hd Hc Hb Hlen.
  injection Hc as <-.
  assert (Hhuge : CInt.SIZE_MODULUS - 2 ^ 31 <= CInt.to_size_t capacity).
  { rewrite to_size_t_negative by assumption.
    unfold CInt.is_int, CInt.INT_MIN in Hint. lia. }
  split; [exact Hhuge|].
  destruct (add_all_negative calls
              {| dimensions := dims; max_elements := capacity; vectors := [] |})
    as (index & Hrun & Hsize); auto.
  { unfold size. cbn [vectors length]. lia. }
  assert (Hcount : size index = Z.of_nat (length calls))
    by (rewrite Hsize; unfold size; cbn [vectors length]; lia).
  exists index. split; [exact Hrun|]. split; [exact Hcount|].
  intros vector id code index'. apply add_not_full.
  destruct (add_all_parameters _ _ _ _ Hrun) as [_ Hm].
  rewrite Hm. cbn [max_elements]. lia.
Qed.

Lemma negative_capacity_never_full_witness :
  (CInt.is_int (-1) /\ -1 < 0 /\ 0 <= 4
   /\ create_hnsw_index 4 (-1) = Some CapacityMinusOne.empty
   /\ Forall (fun c => 4 <= Z.of_nat (length (fst c))) TestVectors.calls
   /\ Z.of_nat (length TestVectors.calls) < CInt.SIZE_MODULUS - 2 ^ 31)
  /\ CInt.SIZE_MODULUS - 2 ^ 31 <= CInt.to_size_t (-1)
  /\ exists index,
       add_all TestVectors.calls CapacityMinusOne.empty
       = Some (map (fun _ => 0) TestVectors.calls, index)
       /\ size index = Z.of_nat (length TestVectors.calls)
       /\ forall vector id code index',
            add_vector_to_index vector id index = Some (code, index') ->
            code = 0.
Proof.
  assert (H1 : CInt.is_int (-1)) by (unfold CInt.is_int; by_evaluation).
  assert (H2 : -1 < 0) by reflexivity.
  assert (H3 : 0 <= 4) by by_evaluation.
  assert (H4 : Forall (fun c => 4 <= Z.of_nat (length (fst c)))
                 TestVectors.calls)
    by (repeat constructor; by_evaluation).
  assert (H5 : Z.of_nat (length TestVectors.calls)
               < CInt.SIZE_MODULUS - 2 ^ 31)
    by reflexivity.
  split; [gathered|].
  exact (negative_capacity_never_full 4 (-1) TestVectors.calls
           CapacityMinusOne.empty H1 H2 H3 eq_refl H4 H5).
Defined.

(** ** Search

    A valid search has a [k] that passes the check ([valid_k]), reads
    inside the query buffer and the stored vectors ([readable]) and runs
    on a stored count that is an [int] ([countable]); where the order of
    the results matters no distance is a NaN ([nan_free]).  An index of
    the data model is countable and holds readable vectors
    ([well_formed_countable], [well_formed_readable]), and finite
    components give distances that are not NaN
    ([finite_inputs_nan_free]). *)

(** C4: a search whose [k] is at most 0 or exceeds the stored count
    returns -1 (invalid argument) and writes no result. *)
Theorem invalid_k_rejected
    (index : hnsw_index) (query : list F32.float) (k : Z) :
  CInt.is_int k -> k <= 0 \/ size index < k ->
  search_vector_in_index query k index
  = Some ({| returned := -1; written := [] |}, index).
Proof.
  intros Hint Hk. unfold search_vector_in_index, bind, get.
  destruct (k <=? 0) eqn:E; [reflexivity|].
  apply Z.leb_gt in E.
  rewrite to_size_t_int by (auto; lia).
  replace (size index <? k) with true by (symmetry; apply Z.ltb_lt; lia).
  reflexivity.
Qed.

Lemma invalid_k_rejected_witness :
  (CInt.is_int 4 /\ (4 <= 0 \/ size TestVectors.filled < 4))
  /\ search_vector_in_index TestVectors.query 4 TestVectors.filled
     = Some ({| returned := -1; written := [] |}, TestVectors.filled).
Proof.
  assert (H1 : CInt.is_int 4) by (unfold CInt.is_int; by_evaluation).
  assert (H2 : 4 <= 0 \/ size TestVectors.filled < 4) by (right; reflexivity).
  split; [gathered|].
  exact (invalid_k_rejected TestVectors.filled TestVectors.query 4 H1 H2).
Defined.

(** C8: whatever a search returns, rejection included, the index it
    leaves is the index it was given: same dimensions, same capacity,
    same entries in the same order. *)
Theorem search_leaves_index_unchanged
    (index index' : hnsw_index) (query : list F32.float) (k : Z)
    (out : search_output) :
  search_vector_in_index query k index = Some (out, index') ->
  index' = index
  /\ dimensions index' = dimensions index
  /\ max_elements index' = max_elements index
  /\ vectors index' = vectors index.
Proof.
  intros H. assert (E : index' = index); [|now subst].
  revert H. unfold search_vector_in_index, bind, get, lift, ret, undefined.
  destruct ((k <=? 0) || (size index <? CInt.to_size_t k)).
  - intros H. now injection H.
  - destruct (scan _ _ _ _) as [distances|]; [|discriminate].
    destruct (copy_out _ _ _) as [results|]; [|discriminate].
    intros H. now injection H.
Qed.

Lemma search_leaves_index_unchanged_witness :
  search_vector_in_index TestVectors.query 3 TestVectors.filled
  = Some (TestVectors.found, TestVectors.filled)
  /\ TestVectors.filled = TestVectors.filled
  /\ dimensions TestVectors.filled = dimensions TestVectors.filled
  /\ max_elements TestVectors.filled = max_elements TestVectors.filled
  /\ vectors TestVectors.filled = vectors TestVectors.filled.
Proof.
  split; [reflexivity|].
  exact (search_leaves_index_unchanged TestVectors.filled TestVectors.filled
           TestVectors.query 3 TestVectors.found eq_refl).
Defined.

(** C6: in a valid search the distance computed for every stored entry
    is the Euclidean distance between the query and the entry's vector,
    the square root of the sum over the first [dimensions] components of
    the squared differences.  The sequence [distances] that the search
    builds pairs every stored entry, in order, with that distance, and
    what the search writes is the beginning, as long as the count it
    returns, of a rearrangement of this sequence, so that every result
    written carries that distance for a stored entry of its identifier;
    the count is [k] on an index whose stored count is an [int]. *)
Theorem distances_are_euclidean
    (index : hnsw_index) (query : list F32.float) (k : Z) :
  valid_k index k -> readable index query ->
  (forall e, In e (vectors index) ->
     entry_distance (dimensions index) query (snd e)
     = Some (euclidean_distance (dimensions index) query (snd e)))
  /\ scan (dimensions index) query (vectors index) []
     = Some (keyed (dimensions index) query (vectors index))
  /\ exists out sorted,
       search_vector_in_index query k index = Some (out, index)
       /\ Permutation sorted
            (keyed (dimensions index) query (vectors index))
       /\ written out
          = map as_result (firstn (Z.to_nat (returned out)) sorted)
       /\ Forall
            (fun r => exists stored,
               In (fst r, stored) (vectors index)
               /\ snd r = euclidean_distance (dimensions index) query stored)
            (written out)
       /\ (countable index ->
           returned out = k /\ Z.of_nat (length (written out)) = k).
Proof.
  intros Hk Hr. pose proof Hr as [Hq Hv]. pose proof Hk as [_ [Hlo Hhi]].
  split; [|split].
  - intros e He. rewrite Forall_forall in Hv.
    apply entry_distance_spec; auto.
  - now rewrite scan_spec.
  - eexists. exists (ranking index query).
    split; [now apply search_spec_any_count|]. cbn [returned written].
    split; [apply ranking_perm|]. split; [reflexivity|].
    split.
    { rewrite Forall_map, Forall_forall.
      intros p Hp. apply in_firstn in Hp.
      apply (Permutation_in _ (ranking_perm index query)) in Hp.
      unfold keyed in Hp. apply in_map_iff in Hp.
      destruct Hp as ([id stored] & <- & He).
      exists stored. simpl. auto. }
    intros Hc.
    assert (Hcount : Std.min k (CInt.to_int (size index)) = k).
    { unfold countable in Hc.
      rewrite to_int_small by (unfold size in *; lia).
      unfold Std.min.
      replace (size index <? k) with false
        by (symmetry; apply Z.ltb_ge; lia).
      reflexivity. }
    rewrite Hcount. split; [reflexivity|].
    rewrite length_map. apply firstn_length_le.
    unfold ranking. rewrite sort_length, keyed_length. exact (conj Hlo Hhi).
Qed.

Lemma distances_are_euclidean_witness :
  (valid_k TestVectors.filled 3
   /\ readable TestVectors.filled TestVectors.query)
  /\ (forall e, In e (vectors TestVectors.filled) ->
        entry_distance 4 TestVectors.query (snd e)
        = Some (euclidean_distance 4 TestVectors.query (snd e)))
  /\ scan 4 TestVectors.query (vectors TestVectors.filled) []
     = Some (keyed 4 TestVectors.query (vectors TestVectors.filled))
  /\ exists out sorted,
       search_vector_in_index TestVectors.query 3 TestVectors.filled
       = Some (out, TestVectors.filled)
       /\ Permutation sorted
            (keyed 4 TestVectors.query (vectors TestVectors.filled))
       /\ written out
          = map as_result (firstn (Z.to_nat (returned out)) sorted)
       /\ Forall
            (fun r => exists stored,
               In (fst r, stored) (vectors TestVectors.filled)
               /\ snd r = euclidean_distance 4 TestVectors.query stored)
            (written out)
       /\ (countable TestVectors.filled ->
           returned out = 3 /\ Z.of_nat (length (written out)) = 3).
Proof.
  pose proof test_valid_k as H1. pose proof test_readable as H2.
  split; [gathered|].
  exact (distances_are_euclidean TestVectors.filled TestVectors.query 3
           H1 H2).
Defined.

(** ** Where the count and the order give way *)

Lemma crowded_size : size Crowded.index = 2 ^ 31.
Proof.
  unfold size, Crowded.index. cbn [vectors].
  rewrite repeat_length. unfold Crowded.count. apply Z2Nat.id. lia.
Qed.

(** With 2^31 entries [static_cast<int>] turns the count into -2^31,
    which [std::min] prefers to [k]: the search returns it and writes
    nothing. *)
Lemma overfull_valid_k index : size index = 2 ^ 31 -> valid_k index 1.
Proof.
  intros Hs. unfold valid_k. rewrite Hs.
  unfold CInt.is_int, CInt.INT_MIN, CInt.INT_MAX. lia.
Qed.

Lemma overfull_search index query :
  size index = 2 ^ 31 -> readable index query ->
  search_vector_in_index query 1 index
  = Some ({| returned := - 2 ^ 31; written := [] |}, index).
Proof.
  intros Hs Hr.
  rewrite (search_spec_any_count index query 1 (overfull_valid_k index Hs) Hr).
  rewrite Hs.
  change (Std.min 1 (CInt.to_int (2 ^ 31))) with (- 2 ^ 31).
  change (Z.to_nat (- 2 ^ 31)) with 0%nat.
  rewrite firstn_O. reflexivity.
Qed.

Lemma overfull_returns_no_result index query :
  size index = 2 ^ 31 -> readable index query ->
  ~ returns_k_nearest index query 1.
Proof.
  intros Hs Hr H.
  destruct (H _ _ (overfull_search index query Hs Hr)) as [Hret _].
  cbn [returned] in Hret. discriminate Hret.
Qed.

Lemma overfull_writes_no_ranking index query :
  size index = 2 ^ 31 -> readable index query ->
  ~ lexicographic_results index query 1.
Proof.
  intros Hs Hr H.
  destruct (H _ _ (overfull_search index query Hs Hr)) as (sorted & Hp & _ & Hw).
  cbn [written] in Hw.
  apply Permutation_length in Hp. rewrite keyed_length in Hp.
  unfold size in Hs. rewrite <- Hp in Hs.
  destruct sorted as [|p sorted]; [discriminate Hs|].
  discriminate Hw.
Qed.

Lemma crowded_readable : readable Crowded.index [].
Proof.
  split; [cbn; lia|].
  apply Forall_forall. intros e _. cbn [dimensions Crowded.index]. lia.
Qed.

(** Into an index created with dimension 0 and capacity -1, which the
    comparison with the stored count reads as 2^64 - 1, insertions go on
    succeeding. *)
Lemma unbounded_insertions_from n : forall stored,
  Z.of_nat (length stored) + Z.of_nat n < 2 ^ 64 ->
  add_all (repeat ([], 7) n)
    {| dimensions := 0; max_elements := -1; vectors := stored |}
  = Some (repeat 0 n,
          {| dimensions := 0; max_elements := -1;
             vectors := stored ++ repeat (7, []) n |}).
Proof.
  induction n as [|n IH]; intros stored Hn.
  - cbn [repeat add_all]. rewrite app_nil_r. reflexivity.
  - cbn [repeat add_all]. unfold bind at 1.
    rewrite add_room.
    + unfold bind. cbn [dimensions max_elements vectors].
      rewrite IH by (rewrite length_app; cbn [length]; lia).
      unfold ret. rewrite <- app_assoc. reflexivity.
    + unfold size. cbn [vectors max_elements].
      change (CInt.to_size_t (-1)) with (2 ^ 64 - 1). lia.
    + cbn [dimensions length]. lia.
Qed.

Lemma unbounded_insertions n :
  Z.of_nat n < 2 ^ 64 ->
  add_all (repeat ([], 7) n)
    {| dimensions := 0; max_elements := -1; vectors := [] |}
  = Some (repeat 0 n,
          {| dimensions := 0; max_elements := -1;
             vectors := repeat (7, []) n |}).
Proof.
  intros Hn. rewrite unbounded_insertions_from by (cbn [length]; lia).
  reflexivity.
Qed.

Lemma crowded_count : Z.of_nat Crowded.count < 2 ^ 64.
Proof. unfold Crowded.count. rewrite Z2Nat.id by lia. reflexivity. Qed.

Lemma crowded_built :
  create_hnsw_index 0 (-1) = Some Crowded.empty
  /\ add_all (repeat ([], 7) Crowded.count) Crowded.empty
     = Some (repeat 0 Crowded.count, Crowded.index).
Proof. exact (conj eq_refl (unbounded_insertions Crowded.count crowded_count)). Qed.

Example with_nan_search :
  search_vector_in_index WithNaN.query 4 WithNaN.index
  = Some ({| returned := 4;
             written := [(0, F32.of_Z 1); (1, F32.of_Z 2);
                         (2, S754_nan); (3, F32.halves 3)] |},
          WithNaN.index).
Proof. reflexivity. Qed.

Lemma with_nan_valid_k : valid_k WithNaN.index 4.
Proof. unfold valid_k, CInt.is_int. by_evaluation. Qed.

Lemma map_as_result_inv l r :
  map as_result l = r -> l = map (fun p => (snd p, fst p)) r.
Proof.
  intros <-. rewrite map_map.
  induction l as [|[d i] l IH]; [reflexivity|].
  cbn [map as_result fst snd]. f_equal. exact IH.
Qed.

Lemma with_nan_sorted sorted :
  Permutation sorted
    (keyed (dimensions WithNaN.index) WithNaN.query (vectors WithNaN.index)) ->
  [(0, F32.of_Z 1); (1, F32.of_Z 2); (2, S754_nan); (3, F32.halves 3)]
  = map as_result (firstn (Z.to_nat 4) sorted) ->
  sorted = [(F32.of_Z 1, 0); (F32.of_Z 2, 1); (S754_nan, 2); (F32.halves 3, 3)].
Proof.
  intros Hp Hw.
  apply Permutation_length in Hp. rewrite keyed_length in Hp.
  cbn [vectors WithNaN.index length] in Hp.
  rewrite firstn_all2 in Hw by (rewrite Hp; cbn; lia).
  symmetry in Hw. apply map_as_result_inv in Hw. exact Hw.
Qed.

Lemma with_nan_not_ascending :
  ~ returns_k_nearest WithNaN.index WithNaN.query 4.
Proof.
  intros H. destruct (H _ _ with_nan_search) as (_ & _ & sorted & Hp & Hs & Hw).
  cbn [written] in Hw. rewrite (with_nan_sorted sorted Hp Hw) in Hs.
  apply StronglySorted_inv in Hs. destruct Hs as [Hs _].
  apply StronglySorted_inv in Hs. destruct Hs as [_ Hall].
  inversion Hall as [|? ? _ Hrest]; subst.
  inversion Hrest as [|? ? Hbad _]; subst.
  discriminate Hbad.
Qed.

Lemma with_nan_not_lexicographic :
  ~ lexicographic_results WithNaN.index WithNaN.query 4.
Proof.
  intros H. destruct (H _ _ with_nan_search) as (sorted & Hp & Hs & Hw).
  cbn [written] in Hw. rewrite (with_nan_sorted sorted Hp Hw) in Hs.
  apply StronglySorted_inv in Hs. destruct Hs as [Hs _].
  apply StronglySorted_inv in Hs. destruct Hs as [_ Hall].
  inversion Hall as [|? ? Hbad _]; subst.
  destruct Hbad as [Hbad|[Hbad _]]; discriminate Hbad.
Qed.

(** C5, as stated, fails.  On the index that 2^31 insertions leave when
    it was created with capacity -1, the search for [k = 1], which passes
    the check, returns [-2^31] and writes nothing.  On four entries with
    a NaN among the distances the search for [k = 4] returns 4 and writes
    distance 1.5 after distance 2. *)
Lemma search_returns_fewer_or_unordered :
  (add_all (repeat ([], 7) Crowded.count) Crowded.empty
     = Some (repeat 0 Crowded.count, Crowded.index)
   /\ valid_k Crowded.index 1
   /\ search_vector_in_index [] 1 Crowded.index
      = Some ({| returned := - 2 ^ 31; written := [] |}, Crowded.index)
   /\ ~ returns_k_nearest Crowded.index [] 1)
  /\ (valid_k WithNaN.index 4
      /\ search_vector_in_index WithNaN.query 4 WithNaN.index
         = Some ({| returned := 4;
                    written := [(0, F32.of_Z 1); (1, F32.of_Z 2);
                                (2, S754_nan); (3, F32.halves 3)] |},
                 WithNaN.index)
      /\ ~ returns_k_nearest WithNaN.index WithNaN.query 4).
Proof.
  exact (conj
           (conj (proj2 crowded_built)
              (conj (overfull_valid_k _ crowded_size)
                 (conj (overfull_search _ _ crowded_size crowded_readable)
                    (overfull_returns_no_result _ _ crowded_size
                       crowded_readable))))
           (conj with_nan_valid_k
              (conj with_nan_search with_nan_not_ascending))).
Qed.

(** C5, amended: on an index whose stored count is an [int] (as on every
    index of positive capacity), a search whose [k] passes the check,
    which reads inside its buffers and whose distances hold no NaN,
    returns [k] and writes exactly [k] results, the first [k] pairs of
    the stored entries' (distance, identifier) pairs put in ascending
    order of distance. *)
Theorem search_returns_k_nearest
    (index : hnsw_index) (query : list F32.float) (k : Z) :
  valid_k index k -> countable index -> readable index query ->
  nan_free index query ->
  exists out sorted,
    search_vector_in_index query k index = Some (out, index)
    /\ returned out = k
    /\ Z.of_nat (length (written out)) = k
    /\ Permutation sorted (keyed (dimensions index) query (vectors index))
    /\ StronglySorted dist_le sorted
    /\ written out = map as_result (firstn (Z.to_nat k) sorted).
Proof.
  intros Hk Hc Hr Hn.
  eexists. exists (ranking index query).
  split; [now apply search_spec|]. cbn [returned written].
  split; [reflexivity|].
  split.
  - rewrite length_map. apply firstn_length_le.
    destruct Hk as [_ Hk]. unfold ranking.
    rewrite sort_length, keyed_length. exact Hk.
  - split; [apply ranking_perm|]. split; [|reflexivity].
    eapply strongly_sorted_impl with (P := fun _ => True).
    + intros a b _ _. apply not_after_dist.
    + apply Forall_forall. auto.
    + now apply ranking_ascending.
Qed.

Lemma search_returns_k_nearest_witness :
  (valid_k TestVectors.filled 3
   /\ countable TestVectors.filled
   /\ readable TestVectors.filled TestVectors.query
   /\ nan_free TestVectors.filled TestVectors.query)
  /\ exists out sorted,
       search_vector_in_index TestVectors.query 3 TestVectors.filled
       = Some (out, TestVectors.filled)
       /\ returned out = 3
       /\ Z.of_nat (length (written out)) = 3
       /\ Permutation sorted
            (keyed 4 TestVectors.query (vectors TestVectors.filled))
       /\ StronglySorted dist_le sorted
       /\ written out = map as_result (firstn (Z.to_nat 3) sorted).
Proof.
  pose proof test_valid_k as H1. pose proof test_countable as H2.
  pose proof test_readable as H3. pose proof test_nan_free as H4.
  split; [gathered|].
  exact (search_returns_k_nearest TestVectors.filled TestVectors.query 3
           H1 H2 H3 H4).
Defined.

(** ** Ties *)

(** C1, as stated, fails.  Identifier 3 is stored before identifier 1
    with the same vector, so both lie at the same distance of the query;
    the search writes identifier 1 first, where insertion order asks for
    identifier 3 first. *)
Lemma insertion_order_not_kept :
  valid_k TiedPair.index 2
  /\ vectors TiedPair.index = [(3, TiedPair.v); (1, TiedPair.v)]
  /\ search_vector_in_index TiedPair.query 2 TiedPair.index
     = Some ({| returned := 2;
                written := [(1, F32.zero); (3, F32.zero)] |}, TiedPair.index)
  /\ map as_result
       (firstn 2 (insertion_order_ranking 2 TiedPair.query (vectors TiedPair.index)))
     = [(3, F32.zero); (1, F32.zero)]
  /\ ~ ties_in_insertion_order TiedPair.index TiedPair.query 2.
Proof.
  split; [exact tied_valid_k|].
  split; [reflexivity|]. split; [reflexivity|]. split; [reflexivity|].
  intros H. specialize (H _ _ eq_refl). vm_compute in H. discriminate H.
Qed.

(** C1, amended: in a valid search, of two results whose distances
    compare equal the one with the smaller identifier is written first
    (identifiers ascend along a run of equal distances), whichever was
    inserted first. *)
Theorem equal_distances_by_identifier
    (index : hnsw_index) (query : list F32.float) (k : Z) :
  valid_k index k -> countable index -> readable index query ->
  nan_free index query ->
  exists out,
    search_vector_in_index query k index = Some (out, index)
    /\ forall i j id_i id_j d_i d_j,
         (i < j)%nat ->
         nth_error (written out) i = Some (id_i, d_i) ->
         nth_error (written out) j = Some (id_j, d_j) ->
         F32.eqb d_i d_j = true ->
         id_i <= id_j.
Proof.
  intros Hk Hc Hr Hn.
  eexists. split; [now apply search_spec|]. cbn [written].
  intros i j id_i id_j d_i d_j Hij Hi Hj Heq.
  rewrite nth_error_map in Hi, Hj.
  destruct (nth_error _ i) as [[di ii]|] eqn:Ei; [|discriminate].
  destruct (nth_error _ j) as [[dj ij]|] eqn:Ej; [|discriminate].
  injection Hi as -> ->. injection Hj as -> ->.
  assert (Hs : Std.ascending Std.pair_lt (firstn (Z.to_nat k) (ranking index query)))
    by (apply strongly_sorted_firstn, ranking_ascending; assumption).
  pose proof (strongly_sorted_nth _ _ Hs i j _ _ Hij Ei Ej) as Hle.
  unfold Std.not_after, Std.pair_lt in Hle. simpl in Hle.
  rewrite (eqb_not_less _ _ Heq) in Hle.
  apply orb_false_elim in Hle. destruct Hle as [_ Hle].
  simpl in Hle. lia.
Qed.

Lemma equal_distances_by_identifier_witness :
  (valid_k TiedPair.index 2
   /\ countable TiedPair.index
   /\ readable TiedPair.index TiedPair.query
   /\ nan_free TiedPair.index TiedPair.query)
  /\ exists out,
       search_vector_in_index TiedPair.query 2 TiedPair.index
       = Some (out, TiedPair.index)
       /\ forall i j id_i id_j d_i d_j,
            (i < j)%nat ->
            nth_error (written out) i = Some (id_i, d_i) ->
            nth_error (written out) j = Some (id_j, d_j) ->
            F32.eqb d_i d_j = true ->
            id_i <= id_j.
Proof.
  pose proof tied_valid_k as H1. pose proof tied_countable as H2.
  pose proof tied_readable as H3. pose proof tied_nan_free as H4.
  split; [gathered|].
  exact (equal_distances_by_identifier TiedPair.index TiedPair.query 2
           H1 H2 H3 H4).
Defined.

(** C9, as stated, fails, on the same two searches: the first writes
    nothing, and what the second writes is in no ascending lexicographic
    order of the stored pairs. *)
Lemma results_not_lexicographic :
  (add_all (repeat ([], 7) Crowded.count) Crowded.empty
     = Some (repeat 0 Crowded.count, Crowded.index)
   /\ valid_k Crowded.index 1
   /\ search_vector_in_index [] 1 Crowded.index
      = Some ({| returned := - 2 ^ 31; written := [] |}, Crowded.index)
   /\ ~ lexicographic_results Crowded.index [] 1)
  /\ (valid_k WithNaN.index 4
      /\ search_vector_in_index WithNaN.query 4 WithNaN.index
         = Some ({| returned := 4;
                    written := [(0, F32.of_Z 1); (1, F32.of_Z 2);
                                (2, S754_nan); (3, F32.halves 3)] |},
                 WithNaN.index)
      /\ ~ lexicographic_results WithNaN.index WithNaN.query 4).
Proof.
  exact (conj
           (conj (proj2 crowded_built)
              (conj (overfull_valid_k _ crowded_size)
                 (conj (overfull_search _ _ crowded_size crowded_readable)
                    (overfull_writes_no_ranking _ _ crowded_size
                       crowded_readable))))
           (conj with_nan_valid_k
              (conj with_nan_search with_nan_not_lexicographic))).
Qed.

(** C9, amended: on an index whose stored count is an [int], a valid
    search which reads inside its buffers and whose distances hold no NaN
    writes the first [k] pairs of the stored entries' (distance,
    identifier) pairs in ascending lexicographic order, so that equal
    distances come with ascending identifiers; the order of insertion
    has no part in it, since an index holding the same entries in any
    other order yields the same output. *)
Theorem ranking_is_lexicographic
    (index : hnsw_index) (query : list F32.float) (k : Z) :
  valid_k index k -> countable index -> readable index query ->
  nan_free index query ->
  exists sorted,
    Permutation sorted (keyed (dimensions index) query (vectors index))
    /\ StronglySorted lex_le sorted
    /\ search_vector_in_index query k index
       = Some ({| returned := k;
                  written := map as_result (firstn (Z.to_nat k) sorted) |},
               index)
    /\ forall reordered,
         dimensions reordered = dimensions index ->
         Permutation (vectors index) (vectors reordered) ->
         search_vector_in_index query k reordered
         = Some ({| returned := k;
                    written := map as_result (firstn (Z.to_nat k) sorted) |},
                 reordered).
Proof.
  intros Hk Hc Hr Hn.
  exists (ranking index query).
  split; [apply ranking_perm|].
  split.
  { eapply strongly_sorted_impl with (P := ordered_key).
    - exact not_after_lex.
    - now apply ranking_ordered.
    - now apply ranking_ascending. }
  split; [now apply search_spec|].
  intros reordered Hd Hp.
  assert (Hsize : size reordered = size index)
    by (unfold size; now rewrite (Permutation_length Hp)).
  assert (Hrank : ranking reordered query = ranking index query).
  { unfold ranking. rewrite Hd. symmetry.
    apply (sort_permuted Std.pair_lt ordered_key).
    - exact pair_lt_trans.
    - intros x y _ _. apply pair_lt_asym.
    - exact pair_lt_total.
    - now apply keyed_ordered.
    - unfold keyed. now apply Permutation_map. }
  rewrite <- Hrank. apply search_spec.
  - unfold valid_k. rewrite Hsize. exact Hk.
  - unfold countable. rewrite Hsize. exact Hc.
  - destruct Hr as [Hq Hv]. unfold readable. rewrite Hd.
    split; [assumption|]. eapply Permutation_Forall; eauto.
Qed.

Lemma ranking_is_lexicographic_witness :
  (valid_k TiedPair.index 2
   /\ countable TiedPair.index
   /\ readable TiedPair.index TiedPair.query
   /\ nan_free TiedPair.index TiedPair.query)
  /\ exists sorted,
       Permutation sorted (keyed 2 TiedPair.query (vectors TiedPair.index))
       /\ StronglySorted lex_le sorted
       /\ search_vector_in_index TiedPair.query 2 TiedPair.index
          = Some ({| returned := 2;
                     written := map as_result (firstn (Z.to_nat 2) sorted) |},
                  TiedPair.index)
       /\ forall reordered,
            dimensions reordered = 2 ->
            Permutation (vectors TiedPair.index) (vectors reordered) ->
            search_vector_in_index TiedPair.query 2 reordered
            = Some ({| returned := 2;
                       written := map as_result (firstn (Z.to_nat 2) sorted) |},
                    reordered).
Proof.
  pose proof tied_valid_k as H1. pose proof tied_countable as H2.
  pose proof tied_readable as H3. pose proof tied_nan_free as H4.
  split; [gathered|].
  exact (ranking_is_lexicographic TiedPair.index TiedPair.query 2
           H1 H2 H3 H4).
Defined.

Example tied_pair_either_order :
  search_vector_in_index TiedPair.query 2 TiedPair.index
  = Some ({| returned := 2; written := [(1, F32.zero); (3, F32.zero)] |},
          TiedPair.index)
  /\ search_vector_in_index TiedPair.query 2 TiedPair.swapped
     = Some ({| returned := 2; written := [(1, F32.zero); (3, F32.zero)] |},
             TiedPair.swapped).
Proof. split; reflexivity. Qed.

(** * Further properties of the index *)

(** ** Concrete inputs *)

Ltac c_chars_by_cases :=
  unfold c_chars; simpl; repeat (constructor; [discriminate|]); constructor.

Lemma model_name_chars : c_chars Samples.model_name.
Proof. c_chars_by_cases. Qed.

Lemma key_text_chars : c_chars Samples.key_text.
Proof. c_chars_by_cases. Qed.

Lemma long_key_b_chars : c_chars Samples.long_key_b.
Proof. c_chars_by_cases. Qed.

Lemma long_key_c_chars : c_chars Samples.long_key_c.
Proof. c_chars_by_cases. Qed.

Lemma test_finite : finite_inputs TestVectors.filled TestVectors.query.
Proof. unfold finite_inputs. simpl. repeat constructor. Qed.

Lemma test_calls_fit :
  Forall (fun c => 4 <= Z.of_nat (length (fst c))) TestVectors.calls.
Proof. repeat constructor; by_evaluation. Qed.


(** ** Helper facts *)

Lemma fold_left_ext_in {A B} (f g : A -> B -> A) l : forall acc,
  (forall a x, In x l -> f a x = g a x) ->
  fold_left f l acc = fold_left g l acc.
Proof.
  induction l as [|x l IH]; intros acc H; [reflexivity|].
  simpl. rewrite (H acc x) by now left.
  apply IH. intros a y Hy. apply H. now right.
Qed.

(** The distance reads the first [dims] components of both vectors and
    nothing else. *)
Lemma euclidean_distance_ext dims a a' b b' :
  (forall i, (i < Z.to_nat dims)%nat -> nth i a F32.zero = nth i a' F32.zero) ->
  (forall i, (i < Z.to_nat dims)%nat -> nth i b F32.zero = nth i b' F32.zero) ->
  euclidean_distance dims a b = euclidean_distance dims a' b'.
Proof.
  intros Ha Hb. unfold euclidean_distance. f_equal.
  apply fold_left_ext_in. intros acc i Hi.
  apply in_seq in Hi. rewrite Ha, Hb by lia. reflexivity.
Qed.

Lemma nth_firstn_excess {A} n (l excess : list A) d i :
  (n <= length l)%nat -> (i < n)%nat ->
  nth i (firstn n l ++ excess) d = nth i l d.
Proof.
  intros Hn Hi.
  rewrite app_nth1 by (rewrite length_firstn; lia).
  rewrite nth_firstn.
  destruct (i <? n)%nat eqn:E; [reflexivity|].
  apply Nat.ltb_ge in E. lia.
Qed.

Lemma strongly_sorted_split {A} (R : A -> A -> Prop) n : forall l,
  StronglySorted R l ->
  forall a b, In a (firstn n l) -> In b (skipn n l) -> R a b.
Proof.
  induction n as [|n IH]; intros l Hs a b Ha Hb; [destruct Ha|].
  destruct l as [|x l]; [destruct Ha|].
  apply StronglySorted_inv in Hs. destruct Hs as [Hs Hx].
  simpl in Ha, Hb. destruct Ha as [<-|Ha].
  - rewrite Forall_forall in Hx. apply Hx.
    rewrite <- (firstn_skipn n l). apply in_or_app. now right.
  - eapply IH; eauto.
Qed.

Lemma map_as_result_fst (l : list (F32.float * Z)) :
  map fst (map as_result l) = map snd l.
Proof. rewrite map_map. reflexivity. Qed.

Lemma keyed_ids dims query vecs :
  map snd (keyed dims query vecs) = map fst vecs.
Proof. unfold keyed. rewrite map_map. reflexivity. Qed.

(** ** What a search returns *)

(** X1: a search for as many results as the index holds entries returns every
    stored entry exactly once, each identifier paired with the distance of
    its vector: the results are a permutation of the stored entries. *)
Theorem full_search_returns_every_entry
    (index : hnsw_index) (query : list F32.float) :
  1 <= size index -> countable index -> readable index query ->
  exists out,
    search_vector_in_index query (size index) index = Some (out, index)
    /\ returned out = size index
    /\ Permutation (written out)
         (map (fun e => (fst e,
                         euclidean_distance (dimensions index) query (snd e)))
            (vectors index))
    /\ Permutation (map fst (written out)) (map fst (vectors index)).
Proof.
  intros Hone Hc Hr.
  assert (Hk : valid_k index (size index)).
  { unfold valid_k, CInt.is_int, CInt.INT_MIN. unfold countable in Hc.
    repeat split; lia. }
  assert (Hall : firstn (Z.to_nat (size index)) (ranking index query)
                 = ranking index query).
  { apply firstn_all2. unfold ranking. rewrite sort_length, keyed_length.
    unfold size. lia. }
  assert (Hw : Permutation (map as_result (ranking index query))
                 (map (fun e => (fst e,
                         euclidean_distance (dimensions index) query (snd e)))
                    (vectors index))).
  { rewrite (ranking_perm index query). unfold keyed.
    rewrite map_map. reflexivity. }
  eexists. split; [now apply search_spec|]. cbn [returned written].
  rewrite Hall. split; [reflexivity|]. split; [exact Hw|].
  rewrite Hw, map_map. reflexivity.
Qed.

Lemma full_search_returns_every_entry_witness :
  (1 <= size TestVectors.filled
   /\ countable TestVectors.filled
   /\ readable TestVectors.filled TestVectors.query)
  /\ exists out,
       search_vector_in_index TestVectors.query (size TestVectors.filled)
         TestVectors.filled
       = Some (out, TestVectors.filled)
       /\ returned out = size TestVectors.filled
       /\ Permutation (written out)
            (map (fun e => (fst e, euclidean_distance 4 TestVectors.query (snd e)))
               (vectors TestVectors.filled))
       /\ Permutation (map fst (written out))
            (map fst (vectors TestVectors.filled)).
Proof.
  assert (H1 : 1 <= size TestVectors.filled) by by_evaluation.
  pose proof test_countable as H2. pose proof test_readable as H3.
  split; [gathered|].
  exact (full_search_returns_every_entry TestVectors.filled TestVectors.query
           H1 H2 H3).
Defined.

(** X2: the results are the [k] nearest: together with the entries left
    out they make up the stored entries, and no entry left out is
    closer to the query than a result. *)
Theorem left_out_entries_are_no_closer
    (index : hnsw_index) (query : list F32.float) (k : Z) :
  valid_k index k -> countable index -> readable index query ->
  nan_free index query ->
  exists out rest,
    search_vector_in_index query k index = Some (out, index)
    /\ Permutation (written out ++ rest)
         (map (fun e => (fst e,
                         euclidean_distance (dimensions index) query (snd e)))
            (vectors index))
    /\ forall r p, In r (written out) -> In p rest ->
         F32.ltb (snd p) (snd r) = false.
Proof.
  intros Hk Hc Hr Hn.
  exists {| returned := k;
            written := map as_result
                         (firstn (Z.to_nat k) (ranking index query)) |}.
  exists (map as_result (skipn (Z.to_nat k) (ranking index query))).
  split; [now apply search_spec|]. cbn [written]. split.
  - rewrite <- map_app, firstn_skipn, (ranking_perm index query).
    unfold keyed. rewrite map_map. reflexivity.
  - intros r p Hr' Hp.
    apply in_map_iff in Hr'. destruct Hr' as (a & <- & Ha).
    apply in_map_iff in Hp. destruct Hp as (b & <- & Hb).
    simpl. apply (not_after_dist a b).
    eapply strongly_sorted_split; eauto.
    now apply ranking_ascending.
Qed.

Lemma left_out_entries_are_no_closer_witness :
  (valid_k TestVectors.filled 3
   /\ countable TestVectors.filled
   /\ readable TestVectors.filled TestVectors.query
   /\ nan_free TestVectors.filled TestVectors.query)
  /\ exists out rest,
       search_vector_in_index TestVectors.query 3 TestVectors.filled
       = Some (out, TestVectors.filled)
       /\ Permutation (written out ++ rest)
            (map (fun e => (fst e, euclidean_distance 4 TestVectors.query (snd e)))
               (vectors TestVectors.filled))
       /\ forall r p, In r (written out) -> In p rest ->
            F32.ltb (snd p) (snd r) = false.
Proof.
  pose proof test_valid_k as H1. pose proof test_countable as H2.
  pose proof test_readable as H3. pose proof test_nan_free as H4.
  split; [gathered|].
  exact (left_out_entries_are_no_closer TestVectors.filled TestVectors.query 3
           H1 H2 H3 H4).
Defined.

(** X3: asking for fewer results gives the beginning of the longer answer:
    the results for [k' <= k] are the first [k'] results for [k]. *)
Theorem smaller_k_returns_prefix
    (index : hnsw_index) (query : list F32.float) (k k' : Z) :
  valid_k index k -> 1 <= k' <= k ->
  countable index -> readable index query ->
  exists out out',
    search_vector_in_index query k index = Some (out, index)
    /\ search_vector_in_index query k' index = Some (out', index)
    /\ written out' = firstn (Z.to_nat k') (written out).
Proof.
  intros Hk Hk' Hc Hr.
  assert (Hv : valid_k index k').
  { destruct Hk as [Hint Hk]. unfold valid_k, CInt.is_int in *.
    unfold CInt.INT_MIN in *. repeat split; lia. }
  do 2 eexists.
  split; [now apply search_spec|]. split; [now apply search_spec|].
  cbn [written]. rewrite <- firstn_map, <- firstn_map, firstn_firstn.
  f_equal. lia.
Qed.

Lemma smaller_k_returns_prefix_witness :
  (valid_k TestVectors.filled 3 /\ 1 <= 2 <= 3
   /\ countable TestVectors.filled
   /\ readable TestVectors.filled TestVectors.query)
  /\ exists out out',
       search_vector_in_index TestVectors.query 3 TestVectors.filled
       = Some (out, TestVectors.filled)
       /\ search_vector_in_index TestVectors.query 2 TestVectors.filled
          = Some (out', TestVectors.filled)
       /\ written out' = firstn (Z.to_nat 2) (written out).
Proof.
  pose proof test_valid_k as H1.
  assert (H2 : 1 <= 2 <= 3) by by_evaluation.
  pose proof test_countable as H3. pose proof test_readable as H4.
  split; [gathered|].
  exact (smaller_k_returns_prefix TestVectors.filled TestVectors.query 3 2
           H1 H2 H3 H4).
Defined.

(** X4: the search reads the first [dimensions] floats of the query and
    nothing after them: whatever follows them in the buffer, the outcome
    is the same. *)
Theorem query_excess_is_ignored
    (index : hnsw_index) (query excess : list F32.float) (k : Z) :
  valid_k index k -> countable index -> readable index query ->
  search_vector_in_index
    (firstn (Z.to_nat (dimensions index)) query ++ excess) k index
  = search_vector_in_index query k index.
Proof.
  intros Hk Hc Hr. pose proof Hr as [Hq Hv].
  rewrite (search_spec index query) by assumption.
  rewrite search_spec; try assumption.
  - assert (E : keyed (dimensions index)
                  (firstn (Z.to_nat (dimensions index)) query ++ excess)
                  (vectors index)
                = keyed (dimensions index) query (vectors index)).
    { unfold keyed. apply map_ext. intros e. f_equal.
      apply euclidean_distance_ext; [|reflexivity].
      intros i Hi. apply nth_firstn_excess; lia. }
    unfold ranking. now rewrite E.
  - split; [|exact Hv].
    rewrite length_app, length_firstn. lia.
Qed.

Lemma query_excess_is_ignored_witness :
  (valid_k TestVectors.filled 3
   /\ countable TestVectors.filled
   /\ readable TestVectors.filled TestVectors.query)
  /\ search_vector_in_index
       (firstn (Z.to_nat (dimensions TestVectors.filled)) TestVectors.query
        ++ [F32.of_Z 9])
       3 TestVectors.filled
     = search_vector_in_index TestVectors.query 3 TestVectors.filled.
Proof.
  pose proof test_valid_k as H1. pose proof test_countable as H2.
  pose proof test_readable as H3.
  split; [gathered|].
  exact (query_excess_is_ignored TestVectors.filled TestVectors.query
           [F32.of_Z 9] 3 H1 H2 H3).
Defined.

(** ** Runs of insertions *)

Lemma add_all_fill calls : forall index,
  CInt.is_int (max_elements index) -> 0 <= dimensions index ->
  size index <= max_elements index ->
  Forall (fun c => dimensions index <= Z.of_nat (length (fst c))) calls ->
  add_all calls index
  = Some (map (fun _ => 0)
            (firstn (Z.to_nat (max_elements index - size index)) calls)
          ++ map (fun _ => -1)
               (skipn (Z.to_nat (max_elements index - size index)) calls),
          {| dimensions := dimensions index;
             max_elements := max_elements index;
             vectors := vectors index
                        ++ map (entry_of (dimensions index))
                             (firstn (Z.to_nat (max_elements index - size index))
                                calls) |}).
Proof.
  induction calls as [|[vector id] calls IH]; intros index Hint Hd Hsz Hb.
  - rewrite firstn_nil, skipn_nil. simpl. rewrite app_nil_r.
    destruct index; reflexivity.
  - inversion Hb as [|? ? Hv Hb']; subst. simpl in Hv.
    simpl add_all. unfold bind at 1.
    assert (Hsize : 0 <= size index) by (unfold size; lia).
    destruct (Z.eq_dec (size index) (max_elements index)) as [Hfull|Hroom].
    + rewrite add_full by first [assumption | lia].
      unfold bind. rewrite IH by assumption. unfold ret.
      replace (max_elements index - size index) with 0 by lia.
      reflexivity.
    + rewrite add_room
        by (try rewrite to_size_t_int by (auto; lia); lia).
      set (index1 := {| dimensions := _ |}).
      assert (Hs1 : size index1 = size index + 1)
        by (unfold index1, size at 1; cbn [vectors]; apply size_app).
      unfold bind. rewrite (IH index1); auto; [|rewrite Hs1; cbn; lia].
      unfold ret. cbn [dimensions max_elements vectors index1].
      rewrite Hs1.
      replace (Z.to_nat (max_elements index - size index))
        with (S (Z.to_nat (max_elements index - (size index + 1)))) by lia.
      cbn [firstn skipn map app]. rewrite <- app_assoc. reflexivity.
Qed.

(** X5: of a run of insertions into a new index of positive capacity the
    first [capacity] return 0 and are stored in order, each as its
    identifier with the first [dimensions] floats of its buffer; every
    later one returns -1 and stores nothing. *)
Theorem insertions_fill_to_capacity
    (dims capacity : Z) (calls : list (list F32.float * Z))
    (index0 : hnsw_index) :
  CInt.is_int capacity -> 0 < capacity -> 0 <= dims ->
  create_hnsw_index dims capacity = Some index0 ->
  Forall (fun c => dims <= Z.of_nat (length (fst c))) calls ->
  add_all calls index0
  = Some (map (fun _ => 0) (firstn (Z.to_nat capacity) calls)
          ++ map (fun _ => -1) (skipn (Z.to_nat capacity) calls),
          {| dimensions := dims;
             max_elements := capacity;
             vectors := map (entry_of dims) (firstn (Z.to_nat capacity) calls) |}).
Proof.
  intros Hint Hpos Hd Hc Hb. injection Hc as <-.
  rewrite add_all_fill; cbn [dimensions max_elements vectors]; auto.
  - unfold size. cbn [vectors length]. rewrite Z.sub_0_r. reflexivity.
  - unfold size. cbn [vectors length]. lia.
Qed.

Lemma insertions_fill_to_capacity_witness :
  (CInt.is_int 2 /\ 0 < 2 /\ 0 <= 4
   /\ create_hnsw_index 4 2 = Some CapacityTwo.empty
   /\ Forall (fun c => 4 <= Z.of_nat (length (fst c))) TestVectors.calls)
  /\ add_all TestVectors.calls CapacityTwo.empty
     = Some (map (fun _ => 0) (firstn (Z.to_nat 2) TestVectors.calls)
             ++ map (fun _ => -1) (skipn (Z.to_nat 2) TestVectors.calls),
             {| dimensions := 4;
                max_elements := 2;
                vectors := map (entry_of 4)
                             (firstn (Z.to_nat 2) TestVectors.calls) |}).
Proof.
  assert (H1 : CInt.is_int 2) by (unfold CInt.is_int; by_evaluation).
  assert (H2 : 0 < 2) by reflexivity.
  assert (H3 : 0 <= 4) by by_evaluation.
  pose proof test_calls_fit as H4.
  split; [gathered|].
  exact (insertions_fill_to_capacity 4 2 TestVectors.calls CapacityTwo.empty
           H1 H2 H3 eq_refl H4).
Defined.

(** X6: create, [n] insertions within the capacity, then a search for [n]
    results: every insertion returns 0, the search returns [n], and the
    identifiers it writes are those inserted, duplicates included. *)
Theorem built_index_returns_what_was_inserted
    (dims capacity : Z) (calls : list (list F32.float * Z))
    (index0 : hnsw_index) (query : list F32.float) :
  CInt.is_int capacity -> 0 <= dims ->
  create_hnsw_index dims capacity = Some index0 ->
  Forall (fun c => dims <= Z.of_nat (length (fst c))) calls ->
  1 <= Z.of_nat (length calls) <= capacity ->
  dims <= Z.of_nat (length query) ->
  exists index out,
    add_all calls index0 = Some (map (fun _ => 0) calls, index)
    /\ search_vector_in_index query (Z.of_nat (length calls)) index
       = Some (out, index)
    /\ returned out = Z.of_nat (length calls)
    /\ Permutation (map fst (written out)) (map snd calls).
Proof.
  intros Hint Hd Hc Hb Hn Hq. injection Hc as <-.
  set (index := {| dimensions := dims; max_elements := capacity;
                   vectors := map (entry_of dims) calls |}).
  assert (Hrun : add_all calls
                   {| dimensions := dims; max_elements := capacity;
                      vectors := [] |}
                 = Some (map (fun _ => 0) calls, index)).
  { rewrite add_all_fill; cbn [dimensions max_elements vectors]; auto.
    - unfold size. cbn [vectors length]. rewrite Z.sub_0_r.
      rewrite firstn_all2, skipn_all2 by lia.
      cbn [map]. rewrite app_nil_r. reflexivity.
    - unfold size. cbn [vectors length]. lia. }
  assert (Hsize : size index = Z.of_nat (length calls))
    by (unfold index, size; cbn [vectors]; now rewrite length_map).
  assert (Hk : valid_k index (Z.of_nat (length calls))).
  { unfold valid_k, CInt.is_int, CInt.INT_MIN in *. rewrite Hsize.
    repeat split; lia. }
  assert (Hcount : countable index)
    by (unfold countable, CInt.is_int in *; rewrite Hsize; lia).
  assert (Hr : readable index query).
  { split; [exact Hq|]. unfold index. cbn [vectors dimensions].
    rewrite Forall_map. eapply Forall_impl; [|exact Hb].
    intros c Hc. cbv beta in Hc. unfold entry_of. cbn [snd].
    rewrite length_firstn. lia. }
  exists index. eexists.
  split; [exact Hrun|]. split; [now apply search_spec|].
  cbn [returned written]. split; [reflexivity|].
  rewrite firstn_all2
    by (unfold ranking; rewrite sort_length, keyed_length;
        unfold index; cbn [vectors]; rewrite length_map; lia).
  rewrite map_as_result_fst, (ranking_perm index query), keyed_ids.
  unfold index. cbn [vectors]. rewrite map_map. reflexivity.
Qed.

Lemma built_index_returns_what_was_inserted_witness :
  (CInt.is_int 100 /\ 0 <= 4
   /\ create_hnsw_index 4 100
      = Some {| dimensions := 4; max_elements := 100; vectors := [] |}
   /\ Forall (fun c => 4 <= Z.of_nat (length (fst c))) TestVectors.calls
   /\ 1 <= Z.of_nat (length TestVectors.calls) <= 100
   /\ 4 <= Z.of_nat (length TestVectors.query))
  /\ exists index out,
       add_all TestVectors.calls
         {| dimensions := 4; max_elements := 100; vectors := [] |}
       = Some (map (fun _ => 0) TestVectors.calls, index)
       /\ search_vector_in_index TestVectors.query
            (Z.of_nat (length TestVectors.calls)) index
          = Some (out, index)
       /\ returned out = Z.of_nat (length TestVectors.calls)
       /\ Permutation (map fst (written out)) (map snd TestVectors.calls).
Proof.
  assert (H1 : CInt.is_int 100) by (unfold CInt.is_int; by_evaluation).
  assert (H2 : 0 <= 4) by by_evaluation.
  pose proof test_calls_fit as H3.
  assert (H4 : 1 <= Z.of_nat (length TestVectors.calls) <= 100)
    by by_evaluation.
  assert (H5 : 4 <= Z.of_nat (length TestVectors.query)) by by_evaluation.
  split; [gathered|].
  exact (built_index_returns_what_was_inserted 4 100 TestVectors.calls
           {| dimensions := 4; max_elements := 100; vectors := [] |}
           TestVectors.query H1 H2 eq_refl H3 H4 H5).
Defined.

(** One call returns 0 and stores one entry more, or returns -1 and
    stores nothing. *)
Lemma add_code index vector id code index' :
  add_vector_to_index vector id index = Some (code, index') ->
  (code = 0 /\ size index' = size index + 1)
  \/ (code = -1 /\ index' = index).
Proof.
  unfold add_vector_to_index, bind, get.
  destruct (CInt.to_size_t (max_elements index) <=? size index).
  - unfold ret. intros H. injection H as <- <-. now right.
  - destruct (copy_range vector (dimensions index)) as [vec|]; simpl;
      [|discriminate].
    unfold ret. intros H. injection H as <- <-. left.
    split; [reflexivity|]. unfold size at 1. cbn [vectors]. apply size_app.
Qed.

Lemma add_all_codes calls : forall index codes index',
  add_all calls index = Some (codes, index') ->
  length codes = length calls
  /\ Forall (fun c => c = 0 \/ c = -1) codes
  /\ size index' = size index + Z.of_nat (count_occ Z.eq_dec codes 0).
Proof.
  induction calls as [|[vector id] calls IH]; intros index codes index'.
  - simpl. unfold ret. intros H. injection H as <- <-.
    repeat split; [constructor|simpl; lia].
  - simpl. unfold bind at 1.
    destruct (add_vector_to_index vector id index) as [[code index1]|] eqn:E;
      [|discriminate].
    unfold bind.
    destruct (add_all calls index1) as [[codes1 index2]|] eqn:E2;
      [|discriminate].
    unfold ret. intros H. injection H as <- <-.
    destruct (IH _ _ _ E2) as (Hl & Hc & Hs).
    destruct (add_code _ _ _ _ _ E) as [[-> Hs1]|[-> ->]].
    + repeat split; [simpl; lia|constructor; auto|].
      rewrite count_occ_cons_eq by reflexivity. lia.
    + repeat split; [simpl; lia|constructor; auto|].
      rewrite count_occ_cons_neq by discriminate. lia.
Qed.

(** X7: whatever insertions follow the creation of an index of positive
    capacity, the index keeps its two parameters, every stored vector has
    exactly [dimensions] components, every call returns 0 or -1, and the
    stored count is the number of calls that returned 0. *)
Theorem reachable_index_is_well_formed
    (dims capacity : Z) (calls : list (list F32.float * Z))
    (index0 index : hnsw_index) (codes : list Z) :
  CInt.is_int capacity -> 0 < capacity ->
  create_hnsw_index dims capacity = Some index0 ->
  add_all calls index0 = Some (codes, index) ->
  dimensions index = dims
  /\ max_elements index = capacity
  /\ Forall (fun e => Z.of_nat (length (snd e)) = dims) (vectors index)
  /\ length codes = length calls
  /\ Forall (fun c => c = 0 \/ c = -1) codes
  /\ size index = Z.of_nat (count_occ Z.eq_dec codes 0).
Proof.
  intros Hint Hpos Hc Hrun.
  pose proof (created_well_formed _ _ _ Hint Hpos Hc) as Hw0.
  pose proof (add_all_keeps_well_formed _ _ _ _ Hw0 Hrun) as (_ & _ & _ & Hv).
  destruct (add_all_parameters _ _ _ _ Hrun) as [Hd Hm].
  destruct (add_all_codes _ _ _ _ Hrun) as (Hl & Hcodes & Hs).
  injection Hc as <-. cbn [dimensions max_elements] in *.
  rewrite Hd in Hv.
  repeat split; auto.
Qed.

Lemma reachable_index_is_well_formed_witness :
  (CInt.is_int 2 /\ 0 < 2
   /\ create_hnsw_index 4 2 = Some CapacityTwo.empty
   /\ add_all TestVectors.calls CapacityTwo.empty
      = Some ([0; 0; -1], CapacityTwo.full))
  /\ dimensions CapacityTwo.full = 4
  /\ max_elements CapacityTwo.full = 2
  /\ Forall (fun e => Z.of_nat (length (snd e)) = 4) (vectors CapacityTwo.full)
  /\ length [0; 0; -1] = length TestVectors.calls
  /\ Forall (fun c => c = 0 \/ c = -1) [0; 0; -1]
  /\ size CapacityTwo.full = Z.of_nat (count_occ Z.eq_dec [0; 0; -1] 0).
Proof.
  assert (H1 : CInt.is_int 2) by (unfold CInt.is_int; by_evaluation).
  assert (H2 : 0 < 2) by reflexivity.
  split; [gathered|].
  exact (reachable_index_is_well_formed 4 2 TestVectors.calls CapacityTwo.empty
           CapacityTwo.full [0; 0; -1] H1 H2 eq_refl eq_refl).
Defined.

(** ** Distances *)

Lemma sub_self x : F32.is_finite x = true -> F32.sub x x = F32.zero.
Proof.
  destruct x as [[]|[]| |[] m e]; try discriminate; intros _; try reflexivity;
    unfold F32.sub, SFsub; cbv zeta; rewrite Z.sub_diag; reflexivity.
Qed.

Lemma zero_is_least d :
  F32.nonneg d -> F32.is_nan d = false ->
  F32.ltb F32.zero d = false -> d = F32.zero.
Proof.
  destruct d as [[]|[]| |[] m e]; simpl; try discriminate; try reflexivity.
Qed.

Lemma nonneg_not_less_than_zero d :
  F32.nonneg d -> F32.ltb d F32.zero = false.
Proof.
  destruct d as [[]|[]| |[] m e]; simpl; try discriminate; reflexivity.
Qed.

Lemma fold_left_fixed {A B} (f : A -> B -> A) (a : A) l :
  (forall x, In x l -> f a x = a) -> fold_left f l a = a.
Proof.
  induction l as [|x l IH]; intros H; [reflexivity|].
  simpl. rewrite H by now left. apply IH. intros y Hy. apply H. now right.
Qed.

(** A vector of finite components lies at distance [+0] of its own first
    [dims] components. *)
Lemma self_distance_zero dims v :
  Forall (fun x => F32.is_finite x = true) v ->
  dims <= Z.of_nat (length v) ->
  euclidean_distance dims v (firstn (Z.to_nat dims) v) = F32.zero.
Proof.
  intros Hf Hlen. unfold euclidean_distance.
  rewrite fold_left_fixed; [reflexivity|].
  intros i Hi. apply in_seq in Hi. cbv zeta.
  rewrite nth_firstn.
  replace (i <? Z.to_nat dims)%nat with true
    by (symmetry; apply Nat.ltb_lt; lia).
  rewrite sub_self by now apply nth_finite. reflexivity.
Qed.

(** X8: between a query and a stored vector of finite components the
    distance is computed, is not a NaN, is not negative and is not
    [-0.0]. *)
Theorem distance_of_finite_vectors
    (dims : Z) (query stored : list F32.float) :
  dims <= Z.of_nat (length query) -> dims <= Z.of_nat (length stored) ->
  Forall (fun x => F32.is_finite x = true) query ->
  Forall (fun x => F32.is_finite x = true) stored ->
  exists d,
    entry_distance dims query stored = Some d
    /\ F32.is_nan d = false
    /\ F32.ltb d F32.zero = false
    /\ d <> S754_zero true.
Proof.
  intros Hq Hs Fq Fs.
  exists (euclidean_distance dims query stored).
  split; [now apply entry_distance_spec|].
  pose proof (euclidean_distance_nonneg dims query stored) as Hn.
  split; [now apply euclidean_distance_not_nan|].
  split; [now apply nonneg_not_less_than_zero|].
  intros E. rewrite E in Hn. discriminate Hn.
Qed.

Lemma distance_of_finite_vectors_witness :
  (4 <= Z.of_nat (length TestVectors.query)
   /\ 4 <= Z.of_nat (length TestVectors.vec1)
   /\ Forall (fun x => F32.is_finite x = true) TestVectors.query
   /\ Forall (fun x => F32.is_finite x = true) TestVectors.vec1)
  /\ exists d,
       entry_distance 4 TestVectors.query TestVectors.vec1 = Some d
       /\ F32.is_nan d = false
       /\ F32.ltb d F32.zero = false
       /\ d <> S754_zero true.
Proof.
  assert (H1 : 4 <= Z.of_nat (length TestVectors.query)) by by_evaluation.
  assert (H2 : 4 <= Z.of_nat (length TestVectors.vec1)) by by_evaluation.
  assert (H3 : Forall (fun x => F32.is_finite x = true) TestVectors.query)
    by (repeat constructor).
  assert (H4 : Forall (fun x => F32.is_finite x = true) TestVectors.vec1)
    by (repeat constructor).
  split; [gathered|].
  exact (distance_of_finite_vectors 4 TestVectors.query TestVectors.vec1
           H1 H2 H3 H4).
Defined.

(** *** Symmetry *)

Lemma abs_round_aux s mx ex lx :
  SFabs (binary_round_aux F32.prec F32.emax s mx ex lx)
  = binary_round_aux F32.prec F32.emax false mx ex lx.
Proof.
  unfold binary_round_aux.
  destruct (shr_fexp F32.prec F32.emax mx ex lx) as [mrs' e'].
  destruct (shr_fexp F32.prec F32.emax _ e' loc_Exact) as [mrs'' e''].
  destruct (shr_m mrs''); try reflexivity.
  destruct (_ <=? _); reflexivity.
Qed.

Lemma abs_normalize_opp m e :
  SFabs (binary_normalize F32.prec F32.emax (- m) e false)
  = SFabs (binary_normalize F32.prec F32.emax m e false).
Proof.
  destruct m as [|p|p]; try reflexivity; simpl; unfold binary_round;
    destruct (shl_align _ _ _); now rewrite !abs_round_aux.
Qed.

Lemma abs_sub_swap x y : SFabs (F32.sub x y) = SFabs (F32.sub y x).
Proof.
  destruct x as [sx|sx| |sx mx ex], y as [sy|sy| |sy my ey];
    try (destruct sx, sy; reflexivity); try reflexivity.
  unfold F32.sub, SFsub. cbv zeta.
  rewrite (Z.min_comm ey ex).
  set (a := cond_Zopp sx _). set (b := cond_Zopp sy _).
  replace (b - a) with (- (a - b)) by lia.
  now rewrite abs_normalize_opp.
Qed.

Lemma square_abs d : F32.mul d d = F32.mul (SFabs d) (SFabs d).
Proof.
  destruct d as [s|s| |s m e]; try reflexivity; simpl; now destruct s.
Qed.

Lemma square_sub_swap x y :
  F32.mul (F32.sub x y) (F32.sub x y) = F32.mul (F32.sub y x) (F32.sub y x).
Proof.
  rewrite (square_abs (F32.sub x y)), (square_abs (F32.sub y x)).
  now rewrite abs_sub_swap.
Qed.

Lemma accumulate_swap a b n : forall i acc,
  accumulate a b i n acc = accumulate b a i n acc.
Proof.
  induction n as [|n IH]; intros i acc; [reflexivity|].
  simpl. destruct (nth_error a i), (nth_error b i); try reflexivity.
  rewrite square_sub_swap. apply IH.
Qed.

(** X9: between two vectors of finite components, each holding
    [dimensions] floats, the distance is symmetric: computed from either
    side it is the same value, which is not a NaN. *)
Theorem distance_is_symmetric (dims : Z) (a b : list F32.float) :
  dims <= Z.of_nat (length a) -> dims <= Z.of_nat (length b) ->
  Forall (fun x => F32.is_finite x = true) a ->
  Forall (fun x => F32.is_finite x = true) b ->
  exists d,
    entry_distance dims a b = Some d
    /\ entry_distance dims b a = Some d
    /\ F32.is_nan d = false.
Proof.
  intros Ha Hb Fa Fb.
  exists (euclidean_distance dims a b).
  assert (E : entry_distance dims a b = Some (euclidean_distance dims a b))
    by now apply entry_distance_spec.
  split; [exact E|].
  split; [|now apply euclidean_distance_not_nan].
  rewrite <- E. unfold entry_distance. now rewrite accumulate_swap.
Qed.

Lemma distance_is_symmetric_witness :
  (4 <= Z.of_nat (length TestVectors.query)
   /\ 4 <= Z.of_nat (length TestVectors.vec3)
   /\ Forall (fun x => F32.is_finite x = true) TestVectors.query
   /\ Forall (fun x => F32.is_finite x = true) TestVectors.vec3)
  /\ exists d,
       entry_distance 4 TestVectors.query TestVectors.vec3 = Some d
       /\ entry_distance 4 TestVectors.vec3 TestVectors.query = Some d
       /\ F32.is_nan d = false.
Proof.
  assert (H1 : 4 <= Z.of_nat (length TestVectors.query)) by by_evaluation.
  assert (H2 : 4 <= Z.of_nat (length TestVectors.vec3)) by by_evaluation.
  assert (H3 : Forall (fun x => F32.is_finite x = true) TestVectors.query)
    by (repeat constructor).
  assert (H4 : Forall (fun x => F32.is_finite x = true) TestVectors.vec3)
    by (repeat constructor).
  split; [gathered|].
  exact (distance_is_symmetric 4 TestVectors.query TestVectors.vec3
           H1 H2 H3 H4).
Defined.

(** ** Looking up what was inserted *)

Lemma ranking_head_least index query e :
  nan_free index query -> In e (vectors index) ->
  exists h t,
    ranking index query = h :: t
    /\ Std.not_after Std.pair_lt h
         (euclidean_distance (dimensions index) query (snd e), fst e)
    /\ ordered_key h.
Proof.
  intros Hn He.
  set (key := (euclidean_distance (dimensions index) query (snd e), fst e)).
  assert (Hin : In key (ranking index query)).
  { eapply Permutation_in; [symmetry; apply ranking_perm|].
    unfold keyed. apply in_map_iff. now exists e. }
  pose proof (ranking_ascending index query Hn) as Hs.
  pose proof (ranking_ordered index query Hn) as Ho.
  destruct (ranking index query) as [|h t]; [destruct Hin|].
  exists h, t. split; [reflexivity|].
  inversion Ho as [|? ? Hh Ht]; subst. split; [|exact Hh].
  apply StronglySorted_inv in Hs. destruct Hs as [_ Hall].
  destruct Hin as [<-|Hin].
  - unfold Std.not_after. destruct (Std.pair_lt h h) eqn:E; [|reflexivity].
    now rewrite (pair_lt_asym _ _ E) in E.
  - rewrite Forall_forall in Hall. now apply Hall.
Qed.

(** X10: a vector of finite components that has just been inserted is found:
    a search for it with [k = 1] returns distance [0.0], under the new
    identifier or a smaller one stored at the same distance. *)
Theorem inserted_vector_is_found
    (index : hnsw_index) (vector : list F32.float) (id : Z) :
  CInt.is_int (max_elements index) ->
  size index < max_elements index ->
  0 <= dimensions index <= Z.of_nat (length vector) ->
  readable index vector -> finite_inputs index vector ->
  exists index' id0,
    add_vector_to_index vector id index = Some (0, index')
    /\ search_vector_in_index vector 1 index'
       = Some ({| returned := 1; written := [(id0, F32.zero)] |}, index')
    /\ id0 <= id.
Proof.
  intros Hint Hroom Hlen [Hq Hv] [Fq Fv].
  assert (Hsz : 0 <= size index) by (unfold size; lia).
  set (stored := firstn (Z.to_nat (dimensions index)) vector).
  set (index' := {| dimensions := dimensions index;
                    max_elements := max_elements index;
                    vectors := vectors index ++ [(id, stored)] |}).
  assert (Hadd : add_vector_to_index vector id index = Some (0, index')).
  { apply add_room; [|assumption].
    rewrite to_size_t_int by (auto; lia). assumption. }
  assert (Hs' : size index' = size index + 1)
    by (unfold index', size at 1; cbn [vectors]; apply size_app).
  assert (Hk : valid_k index' 1).
  { unfold valid_k, CInt.is_int, CInt.INT_MIN, CInt.INT_MAX.
    rewrite Hs'. repeat split; lia. }
  assert (Hc : countable index').
  { unfold countable, CInt.is_int in *. rewrite Hs'. lia. }
  assert (Hr : readable index' vector).
  { split; [exact Hq|]. unfold index'. cbn [vectors dimensions].
    apply Forall_app. split; [exact Hv|].
    constructor; [|constructor]. cbn [snd]. unfold stored.
    rewrite length_firstn. lia. }
  assert (Hn : nan_free index' vector).
  { apply finite_inputs_nan_free. split; [exact Fq|].
    unfold index'. cbn [vectors]. apply Forall_app. split; [exact Fv|].
    constructor; [|constructor]. cbn [snd]. unfold stored.
    rewrite Forall_forall in *. intros x Hx. apply Fq.
    eapply in_firstn; eauto. }
  destruct (ranking_head_least index' vector (id, stored) Hn)
    as (h & t & Hrank & Hle & Hh).
  { unfold index'. cbn [vectors]. apply in_or_app. right. now left. }
  cbn [fst snd] in Hle.
  replace (euclidean_distance (dimensions index') vector stored)
    with F32.zero in Hle
    by (symmetry; apply self_distance_zero; [assumption|cbn; lia]).
  destruct h as [d id0]. destruct Hh as [Hnan Hnn]. cbn [fst] in Hnan, Hnn.
  unfold Std.not_after, Std.pair_lt in Hle. cbn [fst snd] in Hle.
  apply orb_false_elim in Hle. destruct Hle as [Hd Hid].
  pose proof (zero_is_least d Hnn Hnan Hd) as ->.
  change (F32.ltb F32.zero F32.zero) with false in Hid. simpl in Hid.
  exists index', id0. split; [exact Hadd|]. split; [|lia].
  rewrite search_spec by assumption. rewrite Hrank. reflexivity.
Qed.

Lemma inserted_vector_is_found_witness :
  (CInt.is_int (max_elements LongBuffer.index)
   /\ size LongBuffer.index < max_elements LongBuffer.index
   /\ 0 <= dimensions LongBuffer.index <= Z.of_nat (length LongBuffer.vector)
   /\ readable LongBuffer.index LongBuffer.vector
   /\ finite_inputs LongBuffer.index LongBuffer.vector)
  /\ exists index' id0,
       add_vector_to_index LongBuffer.vector 9 LongBuffer.index
       = Some (0, index')
       /\ search_vector_in_index LongBuffer.vector 1 index'
          = Some ({| returned := 1; written := [(id0, F32.zero)] |}, index')
       /\ id0 <= 9.
Proof.
  assert (H1 : CInt.is_int (max_elements LongBuffer.index))
    by (unfold CInt.is_int; by_evaluation).
  assert (H2 : size LongBuffer.index < max_elements LongBuffer.index)
    by reflexivity.
  assert (H3 : 0 <= dimensions LongBuffer.index
               <= Z.of_nat (length LongBuffer.vector))
    by by_evaluation.
  assert (H4 : readable LongBuffer.index LongBuffer.vector)
    by (unfold readable; split; [|repeat constructor]; by_evaluation).
  assert (H5 : finite_inputs LongBuffer.index LongBuffer.vector)
    by (unfold finite_inputs; simpl; repeat constructor).
  split; [gathered|].
  exact (inserted_vector_is_found LongBuffer.index LongBuffer.vector 9
           H1 H2 H3 H4 H5).
Defined.


(** * The sibling modules *)

(** ** Memory regions *)

Lemma store_middle {A} (pre rest : list A) x v :
  Mem.store (pre ++ x :: rest) (Z.of_nat (length pre)) v
  = Some (pre ++ v :: rest).
Proof.
  unfold Mem.store.
  replace (Z.of_nat (length pre) <? 0) with false
    by (symmetry; apply Z.ltb_ge; lia).
  replace (Z.of_nat (length (pre ++ x :: rest)) <=? Z.of_nat (length pre))
    with false
    by (symmetry; apply Z.leb_gt; rewrite length_app; simpl; lia).
  cbn [orb]. rewrite Nat2Z.id.
  rewrite firstn_app, firstn_all, Nat.sub_diag, firstn_O, app_nil_r.
  rewrite skipn_app, skipn_all2 by lia.
  replace (length pre + 1 - length pre)%nat with 1%nat by lia.
  reflexivity.
Qed.

Lemma load_middle {A} (pre rest : list A) x :
  Mem.load (pre ++ x :: rest) (Z.of_nat (length pre)) = Some x.
Proof.
  unfold Mem.load.
  replace (Z.of_nat (length pre) <? 0) with false
    by (symmetry; apply Z.ltb_ge; lia).
  rewrite Nat2Z.id, nth_error_app2, Nat.sub_diag by lia. reflexivity.
Qed.

Lemma store_negative {A} (region : list A) i v :
  i < 0 -> Mem.store region i v = None.
Proof.
  intros H. unfold Mem.store.
  replace (i <? 0) with true by (symmetry; apply Z.ltb_lt; lia).
  reflexivity.
Qed.

(** ** [run_inference] *)

Lemma copy_loop_spec input mid : forall pre post taken,
  length taken = length pre ->
  copy_loop (taken ++ input) (pre ++ mid ++ post)
    (Z.of_nat (length pre)) (length mid)
  = match le_dec (length mid) (length input) with
    | left _ => Some (pre ++ firstn (length mid) input ++ post)
    | right _ => None
    end.
Proof.
  revert input.
  induction mid as [|x mid IH]; intros input pre post taken Hlen.
  - simpl. destruct (le_dec 0 (length input)); [reflexivity|lia].
  - cbn [copy_loop length]. unfold and_then.
    destruct input as [|v input].
    + destruct (le_dec _ _) as [H|H]; [simpl in H; lia|].
      unfold Mem.load.
      replace (Z.of_nat (length pre) <? 0) with false
        by (symmetry; apply Z.ltb_ge; lia).
      rewrite app_nil_r.
      replace (nth_error taken (Z.to_nat (Z.of_nat (length pre)))) with (@None F32.float);
        [reflexivity|].
      symmetry. apply nth_error_None. lia.
    + rewrite <- Hlen at 1. rewrite load_middle.
      cbn [app]. rewrite store_middle.
      replace (Z.of_nat (length pre) + 1) with (Z.of_nat (length (pre ++ [v])))
        by (rewrite length_app; simpl; lia).
      replace (pre ++ v :: mid ++ post) with ((pre ++ [v]) ++ mid ++ post)
        by (now rewrite <- app_assoc).
      replace (taken ++ v :: input) with ((taken ++ [v]) ++ input)
        by (now rewrite <- app_assoc).
      rewrite IH by (rewrite !length_app; simpl; lia).
      cbn [length].
      destruct (le_dec (length mid) (length input)),
               (le_dec (S (length mid)) (S (length input))); try lia;
        [|reflexivity].
      cbn [firstn app]. now rewrite <- app_assoc.
Qed.

Lemma zero_loop_spec mid : forall pre post,
  zero_loop (pre ++ mid ++ post) (Z.of_nat (length pre)) (length mid)
  = Some (pre ++ repeat F32.zero (length mid) ++ post).
Proof.
  induction mid as [|x mid IH]; intros pre post; [reflexivity|].
  cbn [zero_loop length app]. unfold and_then.
  rewrite store_middle.
  replace (Z.of_nat (length pre) + 1) with (Z.of_nat (length (pre ++ [F32.zero])))
    by (rewrite length_app; simpl; lia).
  replace (pre ++ F32.zero :: mid ++ post)
    with ((pre ++ [F32.zero]) ++ mid ++ post)
    by (now rewrite <- app_assoc).
  rewrite IH. cbn [repeat app]. now rewrite <- app_assoc.
Qed.

Lemma std_min_is_min a b : Std.min a b = Z.min a b.
Proof.
  unfold Std.min. destruct (b <? a) eqn:E.
  - apply Z.ltb_lt in E. lia.
  - apply Z.ltb_ge in E. lia.
Qed.

(** X14: [run_inference] returns 0 and leaves in the output buffer the first
    [min(input_size, output_size)] inputs, then zeros up to
    [output_size], then what the buffer held; it prints the model path. *)
Theorem run_inference_copies_then_zeroes
    (runtime : onnx_runtime) (text : list Byte.byte)
    (input_data : list F32.float) (input_size : Z)
    (output_data : list F32.float) (output_size : Z) :
  Mem.c_str (model_path runtime) = Some text ->
  0 <= input_size ->
  0 <= output_size <= Z.of_nat (length output_data) ->
  Z.min input_size output_size <= Z.of_nat (length input_data) ->
  run_inference runtime input_data input_size output_data output_size
  = Some (0,
          firstn (Z.to_nat (Z.min input_size output_size)) input_data
          ++ repeat F32.zero
               (Z.to_nat (output_size - Z.min input_size output_size))
          ++ skipn (Z.to_nat output_size) output_data,
          [String.append "Running inference on model: "
             (String.string_of_list_byte text)]).
Proof.
  intros Hpath Hin Hout Hmin.
  unfold run_inference. rewrite Hpath. cbn [and_then].
  rewrite std_min_is_min.
  set (m := Z.to_nat (Z.min input_size output_size)).
  set (n := Z.to_nat output_size).
  assert (Hmn : (m <= n)%nat) by (unfold m, n; lia).
  set (o1 := firstn m output_data).
  set (o2 := firstn (n - m) (skipn m output_data)).
  set (post := skipn n output_data).
  assert (Hsplit : output_data = o1 ++ o2 ++ post).
  { unfold o1, o2, post.
    rewrite <- (firstn_skipn m output_data) at 1. f_equal.
    rewrite <- (firstn_skipn (n - m) (skipn m output_data)) at 1. f_equal.
    rewrite skipn_skipn. f_equal. lia. }
  assert (Ho1 : length o1 = m)
    by (unfold o1; rewrite length_firstn; unfold m, n in *; lia).
  assert (Ho2 : length o2 = (n - m)%nat)
    by (unfold o2; rewrite length_firstn, length_skipn; unfold m, n in *; lia).
  pose proof (copy_loop_spec input_data o1 [] (o2 ++ post) [] eq_refl) as Hc.
  cbn [app length] in Hc. change (Z.of_nat 0) with 0 in Hc.
  rewrite Ho1 in Hc. rewrite <- Hsplit in Hc.
  destruct (le_dec m (length input_data)) as [Hm|Hm];
    [|unfold m in Hm; lia].
  fold m. rewrite Hc. cbn [and_then].
  pose proof (zero_loop_spec o2 (firstn m input_data) post) as Hz.
  rewrite length_firstn, Ho2 in Hz.
  replace (Z.of_nat (Nat.min m (length input_data)))
    with (Z.min input_size output_size) in Hz by (unfold m in *; lia).
  replace (Z.to_nat (output_size - Z.min input_size output_size))
    with (n - m)%nat by (unfold m, n; lia).
  rewrite Hz. reflexivity.
Qed.

Lemma run_inference_copies_then_zeroes_witness :
  (Mem.c_str (model_path Samples.runtime) = Some [Byte.x6d]
   /\ 0 <= 2
   /\ 0 <= 4 <= Z.of_nat (length Samples.output)
   /\ Z.min 2 4 <= Z.of_nat (length Samples.input))
  /\ run_inference Samples.runtime Samples.input 2 Samples.output 4
     = Some (0,
             firstn (Z.to_nat (Z.min 2 4)) Samples.input
             ++ repeat F32.zero (Z.to_nat (4 - Z.min 2 4))
             ++ skipn (Z.to_nat 4) Samples.output,
             [String.append "Running inference on model: "
                (String.string_of_list_byte [Byte.x6d])]).
Proof.
  assert (H1 : Mem.c_str (model_path Samples.runtime) = Some [Byte.x6d])
    by reflexivity.
  assert (H2 : 0 <= 2) by by_evaluation.
  assert (H3 : 0 <= 4 <= Z.of_nat (length Samples.output)) by by_evaluation.
  assert (H4 : Z.min 2 4 <= Z.of_nat (length Samples.input)) by by_evaluation.
  split; [gathered|].
  exact (run_inference_copies_then_zeroes Samples.runtime [Byte.x6d]
           Samples.input 2 Samples.output 4 H1 H2 H3 H4).
Defined.

(** X15: with a negative [input_size] below [output_size] the zero-filling
    loop starts at index [input_size] and stores in front of the output
    buffer: the call is undefined. *)
Theorem run_inference_negative_input_size
    (runtime : onnx_runtime)
    (input_data : list F32.float) (input_size : Z)
    (output_data : list F32.float) (output_size : Z) :
  input_size < 0 -> input_size < output_size ->
  run_inference runtime input_data input_size output_data output_size = None.
Proof.
  intros Hneg Hlt. unfold run_inference.
  destruct (Mem.c_str (model_path runtime)); [|reflexivity].
  cbn [and_then]. rewrite std_min_is_min, Z.min_l by lia.
  replace (Z.to_nat input_size) with 0%nat by lia.
  cbn [copy_loop and_then].
  destruct (Z.to_nat (output_size - input_size)) as [|n] eqn:E; [lia|].
  cbn [zero_loop]. rewrite store_negative by assumption. reflexivity.
Qed.

Lemma run_inference_negative_input_size_witness :
  (-1 < 0 /\ -1 < 4)
  /\ run_inference Samples.runtime Samples.input (-1) Samples.output 4 = None.
Proof.
  assert (H1 : -1 < 0) by reflexivity.
  assert (H2 : -1 < 4) by reflexivity.
  split; [gathered|].
  exact (run_inference_negative_input_size Samples.runtime Samples.input (-1)
           Samples.output 4 H1 H2).
Defined.

(** ** C strings *)

Lemma not_nul c : c <> Mem.NUL -> Byte.eqb c Mem.NUL = false.
Proof.
  intros H. destruct (Byte.eqb c Mem.NUL) eqn:E; [|reflexivity].
  apply Byte.byte_dec_bl in E. contradiction.
Qed.

Lemma c_str_terminated s junk :
  c_chars s -> Mem.c_str (s ++ Mem.NUL :: junk) = Some s.
Proof.
  induction 1 as [|c s Hc Hs IH]; [reflexivity|].
  simpl. rewrite (not_nul c Hc), IH. reflexivity.
Qed.

Lemma strlen_terminated s junk :
  c_chars s -> Mem.strlen (s ++ Mem.NUL :: junk) = Some (Z.of_nat (length s)).
Proof. intros H. unfold Mem.strlen. now rewrite c_str_terminated. Qed.

Lemma strncpy_chars_terminated n : forall s junk,
  c_chars s ->
  Mem.strncpy_chars (s ++ Mem.NUL :: junk) n
  = Some (firstn n s ++ repeat Mem.NUL (n - length s)).
Proof.
  induction n as [|n IH]; intros s junk Hs; [reflexivity|].
  destruct Hs as [|c s Hc Hs]; [reflexivity|].
  cbn [app Mem.strncpy_chars]. rewrite (not_nul c Hc), IH by assumption.
  reflexivity.
Qed.

Lemma skipn_repeat {A} (x : A) n m : skipn n (repeat x m) = repeat x (m - n).
Proof.
  revert m. induction n as [|n IH]; intros m.
  - now rewrite Nat.sub_0_r.
  - destruct m as [|m]; [reflexivity|]. simpl. apply IH.
Qed.

Lemma firstn_c_chars n s : c_chars s -> c_chars (firstn n s).
Proof.
  unfold c_chars. rewrite !Forall_forall. intros H c Hc.
  apply H. eapply in_firstn; eauto.
Qed.

(** ** [create_onnx_runtime] *)

(** X16: [create_onnx_runtime] keeps the first 255 characters of the path,
    NUL-padded in an array of 256, and prints them; the array always
    holds a terminated string. *)
Theorem create_onnx_runtime_keeps_255_characters
    (path junk : list Byte.byte) :
  c_chars path ->
  exists runtime,
    create_onnx_runtime (Some (path ++ Mem.NUL :: junk))
    = Some (Some runtime,
            [String.append "Created ONNX runtime with model: "
               (String.string_of_list_byte (firstn 255 path))])
    /\ model_path runtime
       = firstn 255 path ++ repeat Mem.NUL (256 - length (firstn 255 path))
    /\ length (model_path runtime) = 256%nat
    /\ Mem.c_str (model_path runtime) = Some (firstn 255 path).
Proof.
  intros Hp.
  set (kept := firstn 255 path).
  assert (Hk : (length kept <= 255)%nat) by apply firstn_le_length.
  assert (Harr : kept ++ repeat Mem.NUL (256 - length kept)
                 = (kept ++ repeat Mem.NUL (255 - length path)) ++ [Mem.NUL]).
  { rewrite <- app_assoc. f_equal.
    replace (256 - length kept)%nat with ((255 - length path) + 1)%nat
      by (unfold kept in *; rewrite length_firstn in *; lia).
    now rewrite repeat_app. }
  assert (Hlen : length (kept ++ repeat Mem.NUL (255 - length path)) = 255%nat)
    by (rewrite length_app, repeat_length; unfold kept;
        rewrite length_firstn; lia).
  exists {| model_path := kept ++ repeat Mem.NUL (256 - length kept) |}.
  cbn [model_path].
  assert (Hstr : Mem.c_str (kept ++ repeat Mem.NUL (256 - length kept))
                 = Some kept).
  { destruct (256 - length kept)%nat as [|z] eqn:E; [lia|].
    cbn [repeat]. apply c_str_terminated. now apply firstn_c_chars. }
  split; [|split; [reflexivity|split; [|exact Hstr]]].
  - unfold create_onnx_runtime, Mem.strncpy.
    change (Z.of_nat (length (repeat Mem.NUL 256)) <? 256 - 1) with false.
    cbv iota. change (Z.to_nat (256 - 1)) with 255%nat.
    rewrite strncpy_chars_terminated by assumption. cbn [and_then].
    rewrite skipn_repeat. change (repeat Mem.NUL (256 - 255)) with [Mem.NUL].
    fold kept.
    change (256 - 1) with (Z.of_nat 255). rewrite <- Hlen at 2.
    rewrite store_middle. cbn [and_then].
    rewrite <- Harr, Hstr. reflexivity.
  - rewrite length_app, repeat_length. lia.
Qed.

Lemma create_onnx_runtime_keeps_255_characters_witness :
  c_chars Samples.model_name
  /\ exists runtime,
       create_onnx_runtime (Some (Samples.model_name ++ Mem.NUL :: []))
       = Some (Some runtime,
               [String.append "Created ONNX runtime with model: "
                  (String.string_of_list_byte (firstn 255 Samples.model_name))])
       /\ model_path runtime
          = firstn 255 Samples.model_name
            ++ repeat Mem.NUL (256 - length (firstn 255 Samples.model_name))
       /\ length (model_path runtime) = 256%nat
       /\ Mem.c_str (model_path runtime) = Some (firstn 255 Samples.model_name).
Proof.
  pose proof model_name_chars as H1.
  split; [gathered|].
  exact (create_onnx_runtime_keeps_255_characters Samples.model_name [] H1).
Defined.

(** ** [create_aes_vault] *)

Lemma create_aes_vault_spec k junk :
  c_chars k ->
  create_aes_vault (Some (k ++ Mem.NUL :: junk))
  = Some (Some {| key := firstn 32 k
                         ++ repeat Mem.NUL (32 - length (firstn 32 k)) |},
          ["Created AES-256 vault"%string]).
Proof.
  intros Hk. unfold create_aes_vault.
  rewrite strlen_terminated by assumption. cbn [and_then].
  rewrite std_min_is_min. unfold Mem.memcpy.
  replace (Z.of_nat (length (k ++ Mem.NUL :: junk))
           <? Z.min (Z.of_nat (length k)) 32) with false
    by (symmetry; apply Z.ltb_ge; rewrite length_app; simpl; lia).
  replace (Z.of_nat (length (repeat Mem.NUL 32))
           <? Z.min (Z.of_nat (length k)) 32) with false
    by (symmetry; apply Z.ltb_ge; rewrite repeat_length; lia).
  cbn [orb and_then].
  replace (Z.to_nat (Z.min (Z.of_nat (length k)) 32))
    with (Nat.min 32 (length k)) by lia.
  rewrite skipn_repeat, firstn_app.
  replace (Nat.min 32 (length k) - length k)%nat with 0%nat by lia.
  rewrite firstn_O, app_nil_r.
  rewrite length_firstn.
  replace (firstn (Nat.min 32 (length k)) k) with (firstn 32 k);
    [reflexivity|].
  rewrite <- (firstn_firstn k 32 (length k)), firstn_all. reflexivity.
Qed.

(** X17: the vault key is the first 32 characters of the key string, padded
    with NULs to 32 bytes. *)
Theorem vault_key_is_32_bytes_of_the_string (k junk : list Byte.byte) :
  c_chars k ->
  exists vault,
    create_aes_vault (Some (k ++ Mem.NUL :: junk))
    = Some (Some vault, ["Created AES-256 vault"%string])
    /\ key vault = firstn 32 k ++ repeat Mem.NUL (32 - length k)
    /\ length (key vault) = 32%nat.
Proof.
  intros Hk. eexists. split; [now apply create_aes_vault_spec|].
  cbn [key]. rewrite length_firstn. split.
  - f_equal. f_equal. lia.
  - rewrite length_app, length_firstn, repeat_length. lia.
Qed.

Lemma vault_key_is_32_bytes_of_the_string_witness :
  c_chars Samples.key_text
  /\ exists vault,
       create_aes_vault (Some (Samples.key_text ++ Mem.NUL :: []))
       = Some (Some vault, ["Created AES-256 vault"%string])
       /\ key vault
          = firstn 32 Samples.key_text
            ++ repeat Mem.NUL (32 - length Samples.key_text)
       /\ length (key vault) = 32%nat.
Proof.
  pose proof key_text_chars as H1.
  split; [gathered|].
  exact (vault_key_is_32_bytes_of_the_string Samples.key_text [] H1).
Defined.

(** X18: two key strings with the same first 32 characters give the same
    vault. *)
Theorem vault_key_ignores_what_follows_32_characters
    (k1 k2 junk1 junk2 : list Byte.byte) :
  c_chars k1 -> c_chars k2 -> firstn 32 k1 = firstn 32 k2 ->
  create_aes_vault (Some (k1 ++ Mem.NUL :: junk1))
  = create_aes_vault (Some (k2 ++ Mem.NUL :: junk2)).
Proof.
  intros H1 H2 E. rewrite !create_aes_vault_spec by assumption.
  now rewrite E.
Qed.

Lemma vault_key_ignores_what_follows_32_characters_witness :
  (c_chars Samples.long_key_b /\ c_chars Samples.long_key_c
   /\ firstn 32 Samples.long_key_b = firstn 32 Samples.long_key_c)
  /\ create_aes_vault (Some (Samples.long_key_b ++ Mem.NUL :: []))
     = create_aes_vault (Some (Samples.long_key_c ++ Mem.NUL :: [])).
Proof.
  pose proof long_key_b_chars as H1. pose proof long_key_c_chars as H2.
  assert (H3 : firstn 32 Samples.long_key_b = firstn 32 Samples.long_key_c)
    by reflexivity.
  split; [gathered|].
  exact (vault_key_ignores_what_follows_32_characters
           Samples.long_key_b Samples.long_key_c [] [] H1 H2 H3).
Defined.

(** X19: a null key gives the key of 32 NUL bytes, and so does the empty
    string. *)
Theorem null_and_empty_key_give_the_zero_key (junk : list Byte.byte) :
  create_aes_vault None
  = Some (Some {| key := repeat Mem.NUL 32 |}, ["Created AES-256 vault"%string])
  /\ create_aes_vault (Some (Mem.NUL :: junk)) = create_aes_vault None.
Proof.
  split; [reflexivity|].
  apply (create_aes_vault_spec [] junk). constructor.
Qed.

(** ** [encrypt_data] and [decrypt_data] *)

Lemma memcpy_spec dest src n :
  0 <= n <= Z.of_nat (length src) -> n <= Z.of_nat (length dest) ->
  Mem.memcpy dest src n
  = Some (firstn (Z.to_nat n) src ++ skipn (Z.to_nat n) dest).
Proof.
  intros Hs Hd. unfold Mem.memcpy.
  replace (Z.of_nat (length src) <? n) with false
    by (symmetry; apply Z.ltb_ge; lia).
  replace (Z.of_nat (length dest) <? n) with false
    by (symmetry; apply Z.ltb_ge; lia).
  reflexivity.
Qed.

(** X20: [encrypt_data] returns the length it was given and writes the
    plaintext itself over the start of the ciphertext buffer, whatever the
    vault, a null one included: the key plays no part. *)
Theorem encrypt_data_copies_the_plaintext
    (vault : ptr aes_vault) (plaintext ciphertext : list Byte.byte) (n : Z) :
  CInt.is_int n ->
  0 <= n <= Z.of_nat (length plaintext) ->
  n <= Z.of_nat (length ciphertext) ->
  encrypt_data vault plaintext n ciphertext
  = Some (n,
          firstn (Z.to_nat n) plaintext ++ skipn (Z.to_nat n) ciphertext,
          ["Encrypting data with AES-256"%string]).
Proof.
  intros Hint Hp Hc. unfold encrypt_data.
  rewrite to_size_t_int by (auto; lia).
  rewrite memcpy_spec by assumption. reflexivity.
Qed.

Lemma encrypt_data_copies_the_plaintext_witness :
  (CInt.is_int 17
   /\ 0 <= 17 <= Z.of_nat (length Samples.hello)
   /\ 17 <= Z.of_nat (length Samples.buffer))
  /\ encrypt_data None Samples.hello 17 Samples.buffer
     = Some (17,
             firstn (Z.to_nat 17) Samples.hello
             ++ skipn (Z.to_nat 17) Samples.buffer,
             ["Encrypting data with AES-256"%string]).
Proof.
  assert (H1 : CInt.is_int 17) by (unfold CInt.is_int; by_evaluation).
  assert (H2 : 0 <= 17 <= Z.of_nat (length Samples.hello)) by by_evaluation.
  assert (H3 : 17 <= Z.of_nat (length Samples.buffer)) by by_evaluation.
  split; [gathered|].
  exact (encrypt_data_copies_the_plaintext None Samples.hello Samples.buffer 17
           H1 H2 H3).
Defined.

(** X21: [decrypt_data] after [encrypt_data] gives back the plaintext, also
    with a vault of another key; what follows the [n] bytes in the
    destination buffer is untouched. *)
Theorem decrypt_recovers_the_plaintext_under_any_key
    (vault vault' : ptr aes_vault)
    (plaintext ciphertext decrypted : list Byte.byte) (n : Z) :
  CInt.is_int n ->
  0 <= n <= Z.of_nat (length plaintext) ->
  n <= Z.of_nat (length ciphertext) ->
  n <= Z.of_nat (length decrypted) ->
  exists ciphertext' decrypted',
    encrypt_data vault plaintext n ciphertext
    = Some (n, ciphertext', ["Encrypting data with AES-256"%string])
    /\ decrypt_data vault' ciphertext' n decrypted
       = Some (n, decrypted', ["Decrypting data with AES-256"%string])
    /\ firstn (Z.to_nat n) decrypted' = firstn (Z.to_nat n) plaintext
    /\ skipn (Z.to_nat n) decrypted' = skipn (Z.to_nat n) decrypted.
Proof.
  intros Hint Hp Hc Hd.
  assert (Hl : length (firstn (Z.to_nat n) plaintext) = Z.to_nat n)
    by (rewrite length_firstn; lia).
  set (c' := firstn (Z.to_nat n) plaintext ++ skipn (Z.to_nat n) ciphertext).
  assert (Hc' : firstn (Z.to_nat n) c' = firstn (Z.to_nat n) plaintext).
  { unfold c'. rewrite firstn_app, Hl, Nat.sub_diag, firstn_O, app_nil_r.
    now rewrite firstn_firstn, Nat.min_id. }
  exists c', (firstn (Z.to_nat n) c' ++ skipn (Z.to_nat n) decrypted).
  split.
  { unfold encrypt_data. rewrite to_size_t_int by (auto; lia).
    rewrite memcpy_spec by assumption. reflexivity. }
  split.
  { unfold decrypt_data. rewrite to_size_t_int by (auto; lia).
    rewrite memcpy_spec; [reflexivity| |assumption].
    unfold c'. rewrite length_app, Hl. lia. }
  rewrite Hc'. split.
  - rewrite firstn_app, Hl, Nat.sub_diag, firstn_O, app_nil_r.
    now rewrite firstn_firstn, Nat.min_id.
  - rewrite skipn_app, Hl, Nat.sub_diag.
    rewrite skipn_all2 by (rewrite Hl; lia). reflexivity.
Qed.

Lemma decrypt_recovers_the_plaintext_under_any_key_witness :
  (CInt.is_int 17
   /\ 0 <= 17 <= Z.of_nat (length Samples.hello)
   /\ 17 <= Z.of_nat (length Samples.buffer)
   /\ 17 <= Z.of_nat (length Samples.buffer))
  /\ exists ciphertext' decrypted',
       encrypt_data (Some {| key := repeat Byte.x01 32 |}) Samples.hello 17
         Samples.buffer
       = Some (17, ciphertext', ["Encrypting data with AES-256"%string])
       /\ decrypt_data (Some {| key := repeat Byte.x02 32 |}) ciphertext' 17
            Samples.buffer
          = Some (17, decrypted', ["Decrypting data with AES-256"%string])
       /\ firstn (Z.to_nat 17) decrypted' = firstn (Z.to_nat 17) Samples.hello
       /\ skipn (Z.to_nat 17) decrypted' = skipn (Z.to_nat 17) Samples.buffer.
Proof.
  assert (H1 : CInt.is_int 17) by (unfold CInt.is_int; by_evaluation).
  assert (H2 : 0 <= 17 <= Z.of_nat (length Samples.hello)) by by_evaluation.
  assert (H3 : 17 <= Z.of_nat (length Samples.buffer)) by by_evaluation.
  split; [gathered|].
  exact (decrypt_recovers_the_plaintext_under_any_key
           (Some {| key := repeat Byte.x01 32 |})
           (Some {| key := repeat Byte.x02 32 |})
           Samples.hello Samples.buffer Samples.buffer 17 H1 H2 H3 H3).
Defined.

(** ** The Python bindings *)

Lemma numpy_to_float_vector_all input : numpy_to_float_vector input = input.
Proof. apply firstn_all. Qed.

(** X22: [PyAESVault::encrypt] and [PyAESVault::decrypt] both return the
    bytes they are given. *)
Theorem python_vault_returns_its_argument
    (vault : ptr aes_vault) (data : list Byte.byte) :
  Z.of_nat (length data) <= CInt.INT_MAX ->
  PyAESVault_encrypt vault data
  = Some (data, ["Encrypting data with AES-256"%string])
  /\ PyAESVault_decrypt vault data
     = Some (data, ["Decrypting data with AES-256"%string]).
Proof.
  intros Hlen.
  assert (Hint : CInt.is_int (Z.of_nat (length data)))
    by (unfold CInt.is_int, CInt.INT_MIN; lia).
  assert (Hcopy : Mem.memcpy (repeat Byte.x00 (length data))
                    (data ++ [Mem.NUL]) (Z.of_nat (length data))
                  = Some data).
  { rewrite memcpy_spec
      by (rewrite ?length_app, ?repeat_length; simpl; lia).
    rewrite Nat2Z.id, firstn_app, firstn_all, Nat.sub_diag, firstn_O.
    rewrite skipn_all2 by (rewrite repeat_length; lia).
    now rewrite !app_nil_r. }
  assert (Hbytes : bytes_at data (Z.of_nat (length data)) = Some data).
  { unfold bytes_at. rewrite Z.ltb_irrefl, Nat2Z.id. now rewrite firstn_all. }
  unfold PyAESVault_encrypt, PyAESVault_decrypt, encrypt_data, decrypt_data.
  rewrite to_int_small by lia.
  rewrite !to_size_t_int by (auto; lia).
  rewrite Hcopy. cbn [and_then]. rewrite to_size_t_int by (auto; lia).
  rewrite Hbytes. split; reflexivity.
Qed.

Lemma python_vault_returns_its_argument_witness :
  Z.of_nat (length Samples.hello) <= CInt.INT_MAX
  /\ PyAESVault_encrypt None Samples.hello
     = Some (Samples.hello, ["Encrypting data with AES-256"%string])
  /\ PyAESVault_decrypt None Samples.hello
     = Some (Samples.hello, ["Decrypting data with AES-256"%string]).
Proof.
  assert (H1 : Z.of_nat (length Samples.hello) <= CInt.INT_MAX)
    by by_evaluation.
  split; [gathered|].
  exact (python_vault_returns_its_argument None Samples.hello H1).
Defined.

Lemma collect_spec w : forall pre_ids pre_distances post_ids post_distances,
  length pre_ids = length pre_distances ->
  collect (pre_ids ++ map fst w ++ post_ids)
    (pre_distances ++ map snd w ++ post_distances)
    (Z.of_nat (length pre_ids)) (length w)
  = Some w.
Proof.
  induction w as [|[id d] w IH];
    intros pre_ids pre_distances post_ids post_distances Hlen;
    [reflexivity|].
  cbn [collect length map app fst snd].
  pose proof (load_middle pre_distances (map snd w ++ post_distances) d) as Hd.
  rewrite <- Hlen in Hd. rewrite load_middle, Hd.
  cbn [and_then].
  replace (Z.of_nat (length pre_ids) + 1)
    with (Z.of_nat (length (pre_ids ++ [id])))
    by (rewrite length_app; simpl; lia).
  replace (pre_ids ++ id :: map fst w ++ post_ids)
    with ((pre_ids ++ [id]) ++ map fst w ++ post_ids)
    by (now rewrite <- app_assoc).
  replace (pre_distances ++ d :: map snd w ++ post_distances)
    with ((pre_distances ++ [d]) ++ map snd w ++ post_distances)
    by (now rewrite <- app_assoc).
  rewrite IH by (rewrite !length_app; simpl; lia).
  reflexivity.
Qed.

Lemma search_turns_away index query k :
  CInt.is_int k -> k <= 0 \/ size index < k ->
  search_vector_in_index query k index
  = Some ({| returned := -1; written := [] |}, index).
Proof.
  intros Hint Hk. unfold search_vector_in_index, bind, get.
  destruct (k <=? 0) eqn:E; [reflexivity|].
  apply Z.leb_gt in E.
  rewrite to_size_t_int by (auto; lia).
  replace (size index <? k) with true by (symmetry; apply Z.ltb_lt; lia).
  reflexivity.
Qed.

(** X11: [PyHNSWIndex::search] raises for a negative [k]; for [k = 0] or a
    [k] above the stored count it returns the empty list, so that the -1
    of the search does not reach Python.  The index is unchanged. *)
Theorem python_search_hides_an_invalid_k
    (index : hnsw_index) (query : list F32.float) (k : Z) :
  CInt.is_int k ->
  (k < 0 -> PyHNSWIndex_search query k index = Some (Raised, index))
  /\ (k = 0 \/ size index < k ->
      PyHNSWIndex_search query k index = Some (Returned [], index)).
Proof.
  intros Hint. unfold PyHNSWIndex_search. split.
  - intros Hk.
    replace (k <? 0) with true by (symmetry; apply Z.ltb_lt; lia).
    reflexivity.
  - intros Hk.
    assert (Hsz : 0 <= size index) by (unfold size; lia).
    replace (k <? 0) with false by (symmetry; apply Z.ltb_ge; lia).
    unfold bind. rewrite search_turns_away by (auto; lia).
    reflexivity.
Qed.

Lemma python_search_hides_an_invalid_k_witness :
  CInt.is_int 4
  /\ (4 < 0 ->
      PyHNSWIndex_search TestVectors.query 4 TestVectors.filled
      = Some (Raised, TestVectors.filled))
  /\ (4 = 0 \/ size TestVectors.filled < 4 ->
      PyHNSWIndex_search TestVectors.query 4 TestVectors.filled
      = Some (Returned [], TestVectors.filled)).
Proof.
  assert (H1 : CInt.is_int 4) by (unfold CInt.is_int; by_evaluation).
  split; [gathered|].
  exact (python_search_hides_an_invalid_k TestVectors.filled TestVectors.query
           4 H1).
Defined.

(** X12: for a valid [k], reads inside the buffers, a stored count that
    is an [int] and distances without NaN, [PyHNSWIndex::search] returns
    the [k] pairs that the search has written, in their order, read back
    from the two buffers: they are the first [k] of the ascending
    ranking. *)
Theorem python_search_returns_the_k_nearest
    (index : hnsw_index) (query : list F32.float) (k : Z) :
  valid_k index k -> countable index -> readable index query ->
  nan_free index query ->
  exists out,
    search_vector_in_index query k index = Some (out, index)
    /\ returned out = k
    /\ Z.of_nat (length (written out)) = k
    /\ written out
       = map as_result (firstn (Z.to_nat k) (ranking index query))
    /\ Std.ascending Std.pair_lt (ranking index query)
    /\ PyHNSWIndex_search query k index
       = Some (Returned (written out), index).
Proof.
  intros Hk Hc Hr Hn. pose proof Hk as [_ [Hlo Hhi]].
  set (w := map as_result (firstn (Z.to_nat k) (ranking index query))).
  assert (Hw : length w = Z.to_nat k).
  { unfold w. rewrite length_map, length_firstn.
    unfold ranking. rewrite sort_length, keyed_length. unfold size in Hhi. lia. }
  exists {| returned := k; written := w |}. cbn [returned written].
  split; [now apply search_spec|]. split; [reflexivity|].
  split; [lia|]. split; [reflexivity|].
  split; [now apply ranking_ascending|].
  unfold PyHNSWIndex_search.
  replace (k <? 0) with false by (symmetry; apply Z.ltb_ge; lia).
  rewrite numpy_to_float_vector_all.
  unfold bind. rewrite search_spec by assumption.
  cbn [returned written]. fold w.
  unfold overwrite. rewrite !length_map, Hw, !skipn_repeat, Nat.sub_diag.
  cbn [repeat].
  pose proof (collect_spec w [] [] [] [] eq_refl) as Hcol.
  cbn [app length] in Hcol. change (Z.of_nat 0) with 0 in Hcol.
  rewrite Hw in Hcol. rewrite Hcol. reflexivity.
Qed.

Lemma python_search_returns_the_k_nearest_witness :
  (valid_k TestVectors.filled 3
   /\ countable TestVectors.filled
   /\ readable TestVectors.filled TestVectors.query
   /\ nan_free TestVectors.filled TestVectors.query)
  /\ exists out,
       search_vector_in_index TestVectors.query 3 TestVectors.filled
       = Some (out, TestVectors.filled)
       /\ returned out = 3
       /\ Z.of_nat (length (written out)) = 3
       /\ written out
          = map as_result
              (firstn (Z.to_nat 3)
                 (ranking TestVectors.filled TestVectors.query))
       /\ Std.ascending Std.pair_lt
            (ranking TestVectors.filled TestVectors.query)
       /\ PyHNSWIndex_search TestVectors.query 3 TestVectors.filled
          = Some (Returned (written out), TestVectors.filled).
Proof.
  pose proof test_valid_k as H1. pose proof test_countable as H2.
  pose proof test_readable as H3. pose proof test_nan_free as H4.
  split; [gathered|].
  exact (python_search_returns_the_k_nearest TestVectors.filled
           TestVectors.query 3 H1 H2 H3 H4).
Defined.

(** X13: [PyHNSWIndex::add_vector] on a full index returns as on success and
    leaves the index as it is: the vector is dropped without a sign. *)
Theorem python_add_vector_drops_silently_when_full
    (index : hnsw_index) (vector : list F32.float) (id : Z) :
  CInt.is_int (max_elements index) -> 0 <= max_elements index ->
  max_elements index <= size index ->
  PyHNSWIndex_add_vector vector id index = Some (tt, index).
Proof.
  intros Hint Hpos Hfull. unfold PyHNSWIndex_add_vector, bind.
  rewrite add_full by assumption. reflexivity.
Qed.

Lemma python_add_vector_drops_silently_when_full_witness :
  (CInt.is_int (max_elements CapacityTwo.full)
   /\ 0 <= max_elements CapacityTwo.full
   /\ max_elements CapacityTwo.full <= size CapacityTwo.full)
  /\ PyHNSWIndex_add_vector TestVectors.vec3 3 CapacityTwo.full
     = Some (tt, CapacityTwo.full).
Proof.
  assert (H1 : CInt.is_int (max_elements CapacityTwo.full))
    by (unfold CInt.is_int; by_evaluation).
  assert (H2 : 0 <= max_elements CapacityTwo.full) by by_evaluation.
  assert (H3 : max_elements CapacityTwo.full <= size CapacityTwo.full)
    by by_evaluation.
  split; [gathered|].
  exact (python_add_vector_drops_silently_when_full CapacityTwo.full
           TestVectors.vec3 3 H1 H2 H3).
Defined.
